(** * Voice capture of the chat widget: a shallow embedding

    The script [static/script_chat_survey.js] exists in three revisions:
    - the simple live speech-to-text widget (module [LiveSimple]),
    - the live speech-to-text widget with a session counter ([LiveToken]),
    - the PCM voice recorder with WAV preview and Base64 upload ([Pcm]).

    Each revision is a closure over a handful of mutable variables and
    page elements; it is embedded as a record (the store) and one function
    per handler, taking the store and returning the next one.  Values that
    a handler's closure captured when it was registered are explicit
    arguments of the handler. *)

From Stdlib Require Import ZArith NArith QArith Lia Lqa List.
From Stdlib Require Import Init.Byte.
From Stdlib Require Strings.Byte Strings.Ascii Strings.String.
From stdpp Require Import base list option strings.

Import ListNotations.
Local Open Scope Z_scope.

(** ** JavaScript values *)

(** A JavaScript string is a sequence of UTF-16 code units. *)
Abbreviation jsstring := (list N).

Module Js.

(** An ASCII literal as code units. *)
Definition lit (s : String.string) : jsstring :=
  map Ascii.N_of_ascii (String.list_ascii_of_string s).
Arguments lit s%_string.

(** WhiteSpace and LineTerminator code units of ECMAScript, the ones
    [String.prototype.trim] strips. *)
Definition is_white_space (c : N) : bool :=
  ((9 <=? c) && (c <=? 13) || (c =? 32) || (c =? 160) || (c =? 5760)
   || (8192 <=? c) && (c <=? 8202) || (c =? 8232) || (c =? 8233)
   || (c =? 8239) || (c =? 8287) || (c =? 12288) || (c =? 65279))%N.

Fixpoint trim_start (s : jsstring) : jsstring :=
  match s with
  | c :: s' => if is_white_space c then trim_start s' else s
  | [] => []
  end.

Definition trim_end (s : jsstring) : jsstring := rev (trim_start (rev s)).

(** [s.trim()] *)
Definition trim (s : jsstring) : jsstring := trim_end (trim_start s).

(** Truthiness of a string: only the empty string is falsy. *)
Definition truthy (s : jsstring) : bool :=
  match s with [] => false | _ => true end.

(** [s || d] on strings. *)
Definition or_else (s d : jsstring) : jsstring := if truthy s then s else d.

(** An element of a [Uint8Array], from an integer ([ToUint8]). *)
Definition u8 (z : Z) : byte :=
  default x00 (Byte.of_N (Z.to_N (z mod 256))).

(** An element of a [Uint8Array], read as a number. *)
Definition byte_val (b : byte) : Z := Z.of_N (Byte.to_N b).

(** [String.fromCharCode.apply(null, bytes)]: one code unit per byte. *)
Definition fromCharCode (bytes : list byte) : jsstring := map Byte.to_N bytes.

(** [arr.subarray(begin, end)] of a typed array, for [begin <= end]; both
    bounds are clamped to the length of the array. *)
Definition subarray {A} (arr : list A) (begin end_ : nat) : list A :=
  drop begin (take end_ arr).

End Js.

(** ** Base64 ([btoa] of the host, and the standard decoder) *)

Module Base64.

(** The alphabet of RFC 4648, table 1: the character of a 6-bit value. *)
Definition encode_sextet (v : N) : N :=
  (if v <? 26 then 65 + v
   else if v <? 52 then 97 + (v - 26)
   else if v <? 62 then 48 + (v - 52)
   else if v =? 62 then 43 else 47)%N.

(** The 6-bit value of a character of the alphabet. *)
Definition decode_sextet (c : N) : option N :=
  (if (65 <=? c) && (c <=? 90) then Some (c - 65)
   else if (97 <=? c) && (c <=? 122) then Some (c - 97 + 26)
   else if (48 <=? c) && (c <=? 57) then Some (c - 48 + 52)
   else if c =? 43 then Some 62
   else if c =? 47 then Some 63
   else None)%N.

(** The padding character [=]. *)
Definition pad : N := 61%N.

(** Groups of three 8-bit units become four characters; a last group of
    one or two units is padded. *)
Fixpoint encode_units (l : list N) : jsstring :=
  match l with
  | [] => []
  | [a] =>
      [encode_sextet (a / 4); encode_sextet (a mod 4 * 16); pad; pad]%N
  | [a; b] =>
      [encode_sextet (a / 4); encode_sextet (a mod 4 * 16 + b / 16);
       encode_sextet (b mod 16 * 4); pad]%N
  | a :: b :: c :: rest =>
      (encode_sextet (a / 4) :: encode_sextet (a mod 4 * 16 + b / 16)
       :: encode_sextet (b mod 16 * 4 + c / 64) :: encode_sextet (c mod 64)
       :: encode_units rest)%N
  end.

(** [btoa(s)]: throws InvalidCharacterError ([None]) when a code unit of
    [s] is above 255. *)
Definition btoa (s : jsstring) : option jsstring :=
  if forallb (fun c => c <=? 255)%N s then Some (encode_units s) else None.

(** The byte holding the low eight bits of [n]. *)
Definition byte_of_N (n : N) : byte :=
  default x00 (Byte.of_N (n mod 256)%N).

(** Four characters without padding: three bytes. *)
Definition decode_full (c1 c2 c3 c4 : N) : option (list byte) :=
  v1 ← decode_sextet c1; v2 ← decode_sextet c2;
  v3 ← decode_sextet c3; v4 ← decode_sextet c4;
  Some [byte_of_N (v1 * 4 + v2 / 16); byte_of_N (v2 mod 16 * 16 + v3 / 4);
        byte_of_N (v3 mod 4 * 64 + v4)]%N.

(** The last four characters, which may end in one or two [=]. *)
Definition decode_final (c1 c2 c3 c4 : N) : option (list byte) :=
  if (c4 =? pad)%N then
    if (c3 =? pad)%N then
      v1 ← decode_sextet c1; v2 ← decode_sextet c2;
      Some [byte_of_N (v1 * 4 + v2 / 16)]%N
    else
      v1 ← decode_sextet c1; v2 ← decode_sextet c2; v3 ← decode_sextet c3;
      Some [byte_of_N (v1 * 4 + v2 / 16);
            byte_of_N (v2 mod 16 * 16 + v3 / 4)]%N
  else decode_full c1 c2 c3 c4.

(** Standard Base64 decoding (RFC 4648, section 4) of a whole text. *)
Fixpoint decode (s : jsstring) : option (list byte) :=
  match s with
  | [] => Some []
  | c1 :: c2 :: c3 :: c4 :: rest =>
      match rest with
      | [] => decode_final c1 c2 c3 c4
      | _ :: _ =>
          hd ← decode_full c1 c2 c3 c4;
          tl ← decode rest;
          Some (hd ++ tl)
      end
  | _ => None
  end.

End Base64.

(** ** The PCM recorder: transport encoder *)

Module Transport.

(** The [while] loop of [uint8ToBase64], for a slice size [CHUNK_SIZE]:
    [index] and [result] are the loop's variables.  The loop is given
    [fuel] iterations; [None] means it has not finished within them. *)
Fixpoint chunk_loop (fuel CHUNK_SIZE : nat) (u8Arr : list byte)
    (index : nat) (result : jsstring) : option jsstring :=
  if (index <? length u8Arr)%nat then
    match fuel with
    | O => None
    | S fuel' =>
        let slice := Js.subarray u8Arr index (index + CHUNK_SIZE) in
        chunk_loop fuel' CHUNK_SIZE u8Arr (index + CHUNK_SIZE)%nat
          (result ++ Js.fromCharCode slice)
    end
  else Some result.

(** [uint8ToBase64] with the slice size as a parameter.  Every iteration
    with a positive slice size advances [index], so [length u8Arr]
    iterations are enough. *)
Definition uint8ToBase64_with (CHUNK_SIZE : nat) (u8Arr : list byte)
    : option jsstring :=
  result ← chunk_loop (length u8Arr) CHUNK_SIZE u8Arr 0 [];
  Base64.btoa result.

(** [let CHUNK_SIZE = 0x8000] *)
Definition CHUNK_SIZE : nat := Z.to_nat 0x8000.

(** [uint8ToBase64(u8Arr)] *)
Definition uint8ToBase64 (u8Arr : list byte) : option jsstring :=
  uint8ToBase64_with CHUNK_SIZE u8Arr.

End Transport.

(** ** The PCM recorder: WAV preview *)

Module Wav.

(** A [DataView] over its [ArrayBuffer], with the variable [offset] of
    [createWavBlob].  The three setters throw RangeError ([None]) when the
    bytes to write do not lie within the buffer. *)
Record cursor := Cursor { view : list byte; offset : nat }.

(** [view.setUint8(off, v)] *)
Definition setUint8 (off : nat) (v : Z) (view : list byte)
    : option (list byte) :=
  if (off + 1 <=? length view)%nat then Some (<[off := Js.u8 v]> view)
  else None.

(** [view.setUint16(off, v, true)] and [view.setInt16(off, v, true)]: the
    low sixteen bits of [v], low byte first. *)
Definition setUint16 (off : nat) (v : Z) (view : list byte)
    : option (list byte) :=
  if (off + 2 <=? length view)%nat then
    Some (<[(off + 1)%nat := Js.u8 (v / 256)]> (<[off := Js.u8 v]> view))
  else None.

Definition setInt16 := setUint16.

(** [view.setUint32(off, v, true)]: the low thirty-two bits of [v], low
    byte first. *)
Definition setUint32 (off : nat) (v : Z) (view : list byte)
    : option (list byte) :=
  if (off + 4 <=? length view)%nat then
    Some (<[(off + 3)%nat := Js.u8 (v / 16777216)]>
          (<[(off + 2)%nat := Js.u8 (v / 65536)]>
           (<[(off + 1)%nat := Js.u8 (v / 256)]>
            (<[off := Js.u8 v]> view))))
  else None.

(** [writeString(s)]: [view.setUint8(offset++, s.charCodeAt(i))] for each
    code unit of [s]. *)
Fixpoint writeString (s : jsstring) (c : cursor) : option cursor :=
  match s with
  | [] => Some c
  | ch :: s' =>
      v ← setUint8 (offset c) (Z.of_N ch) (view c);
      writeString s' (Cursor v (offset c + 1))
  end.

(** [view.setUint32(offset, v, true); offset += 4;] *)
Definition put32 (v : Z) (c : cursor) : option cursor :=
  w ← setUint32 (offset c) v (view c); Some (Cursor w (offset c + 4)).

(** [view.setUint16(offset, v, true); offset += 2;] *)
Definition put16 (v : Z) (c : cursor) : option cursor :=
  w ← setUint16 (offset c) v (view c); Some (Cursor w (offset c + 2)).

(** [chunk.forEach(sample => { view.setInt16(offset, sample, true);
    offset += 2; })] *)
Fixpoint putSamples (chunk : list Z) (c : cursor) : option cursor :=
  match chunk with
  | [] => Some c
  | sample :: chunk' =>
      w ← setInt16 (offset c) sample (view c);
      putSamples chunk' (Cursor w (offset c + 2))
  end.

(** [chunks.forEach(chunk => ...)] *)
Fixpoint putChunks (chunks : list (list Z)) (c : cursor) : option cursor :=
  match chunks with
  | [] => Some c
  | chunk :: chunks' => c' ← putSamples chunk c; putChunks chunks' c'
  end.

(** [chunks.reduce((a, b) => a + b.length, 0)] *)
Definition total_length {A} (chunks : list (list A)) : nat :=
  fold_left (fun a b => (a + length b)%nat) chunks 0%nat.

(** [createWavBlob(chunks, sampleRate)]; a chunk is an [Int16Array].  The
    result is the content of the blob, [None] if a write threw. *)
Definition createWavBlob (chunks : list (list Z)) (sampleRate : Z)
    : option (list byte) :=
  let bufferLength := total_length chunks in
  let buffer := replicate (44 + bufferLength * 2) x00 in
  let dataBytes := Z.of_nat bufferLength * 2 in
  c ← writeString (Js.lit "RIFF") (Cursor buffer 0);
  c ← put32 (36 + dataBytes) c;
  c ← writeString (Js.lit "WAVEfmt ") c;
  c ← put32 16 c;
  c ← put16 1 c;
  c ← put16 1 c;
  c ← put32 sampleRate c;
  c ← put32 (sampleRate * 2) c;
  c ← put16 2 c;
  c ← put16 16 c;
  c ← writeString (Js.lit "data") c;
  c ← put32 dataBytes c;
  c ← putChunks chunks c;
  Some (view c).

(** *** The container as section 3 of the specification lays it out *)

(** A 16-bit field, little-endian. *)
Definition le16 (v : Z) : list byte := [Js.u8 v; Js.u8 (v / 256)].

(** A 32-bit field, little-endian. *)
Definition le32 (v : Z) : list byte :=
  [Js.u8 v; Js.u8 (v / 256); Js.u8 (v / 65536); Js.u8 (v / 16777216)].

Definition ascii_bytes (s : String.string) : list byte :=
  map (fun ch => Js.u8 (Z.of_N ch)) (Js.lit s).
Arguments ascii_bytes s%_string.

(** The 44-byte header for [dataBytes] bytes of samples. *)
Definition header (dataBytes sampleRate : Z) : list byte :=
  ascii_bytes "RIFF" ++ le32 (36 + dataBytes) ++ ascii_bytes "WAVEfmt "
  ++ le32 16 ++ le16 1 ++ le16 1 ++ le32 sampleRate ++ le32 (sampleRate * 2)
  ++ le16 2 ++ le16 16 ++ ascii_bytes "data" ++ le32 dataBytes.

(** The samples of all chunks, in chunk order, two bytes each. *)
Definition sample_bytes (chunks : list (list Z)) : list byte :=
  concat (map le16 (concat chunks)).

Definition layout (chunks : list (list Z)) (sampleRate : Z) : list byte :=
  header (Z.of_nat (length (concat chunks)) * 2) sampleRate
  ++ sample_bytes chunks.

(** Reading fields back. *)
Definition read_u16le (b : list byte) (off : nat) : option Z :=
  b0 ← b !! off; b1 ← b !! (off + 1)%nat;
  Some (Js.byte_val b0 + 256 * Js.byte_val b1).

Definition read_i16le (b : list byte) (off : nat) : option Z :=
  u ← read_u16le b off; Some (if u <? 32768 then u else u - 65536).

Definition read_u32le (b : list byte) (off : nat) : option Z :=
  lo ← read_u16le b off; hi ← read_u16le b (off + 2);
  Some (lo + 65536 * hi).

(** All 16-bit little-endian signed integers of a byte sequence; a last
    odd byte is dropped. *)
Fixpoint decode_i16le (b : list byte) : list Z :=
  match b with
  | b0 :: b1 :: rest =>
      let u := Js.byte_val b0 + 256 * Js.byte_val b1 in
      (if u <? 32768 then u else u - 65536) :: decode_i16le rest
  | _ => []
  end.

End Wav.

(** ** Numbers *)

Module Num.

(** A Number.  Finite values are kept as exact rationals: the samples the
    recorder receives are elements of a [Float32Array], and the product
    of such a value (a 24-bit significand) with 32767 is exactly
    representable in binary64, so the arithmetic of the conversion loop
    does not round. *)
Inductive number := Fin (q : Q) | NaN | PosInf | NegInf.

(** [Math.min(a, b)] *)
Definition min (a b : number) : number :=
  match a, b with
  | NaN, _ | _, NaN => NaN
  | NegInf, _ | _, NegInf => NegInf
  | PosInf, x | x, PosInf => x
  | Fin p, Fin q => if Qle_bool p q then Fin p else Fin q
  end.

(** [Math.max(a, b)] *)
Definition max (a b : number) : number :=
  match a, b with
  | NaN, _ | _, NaN => NaN
  | PosInf, _ | _, PosInf => PosInf
  | NegInf, x | x, NegInf => x
  | Fin p, Fin q => if Qle_bool p q then Fin q else Fin p
  end.

Definition sgn (a : number) : Z :=
  match a with
  | Fin q => Z.sgn (Qnum q)
  | PosInf => 1
  | NegInf => -1
  | NaN => 0
  end.

(** [a * b] *)
Definition mul (a b : number) : number :=
  match a, b with
  | NaN, _ | _, NaN => NaN
  | Fin p, Fin q => Fin (p * q)
  | _, _ =>
      match sgn a * sgn b with
      | Z0 => NaN
      | Zpos _ => PosInf
      | Zneg _ => NegInf
      end
  end.

(** The integer part of a rational, rounding toward zero. *)
Definition truncate (q : Q) : Z := Z.quot (Qnum q) (Zpos (Qden q)).

(** [ToInt16], the conversion applied when a Number is stored into an
    [Int16Array]: NaN and the infinities become 0, a finite value is
    truncated and wrapped modulo 2^16 into [-32768, 32767]. *)
Definition ToInt16 (a : number) : Z :=
  match a with
  | Fin q =>
      let int16bit := truncate q mod 65536 in
      if 32768 <=? int16bit then int16bit - 65536 else int16bit
  | _ => 0
  end.

Definition of_Z (z : Z) : number := Fin (inject_Z z).

End Num.

(** ** The page and the speech recognizer *)

Module Page.

Inductive sender := Bot | User.

(** A message appended to the chat body by [addMessage]. *)
Record message := Message { msg_sender : sender; msg_text : jsstring }.

(** The [style.display] of an element: as the page set it, or as the
    script last wrote it. *)
Inductive display := DisplayInitial | DisplayNone | DisplayBlock.

(** The sign U+26A0 U+FE0F that opens the warnings of the script. *)
Definition warning_sign : jsstring := [0x26A0; 0xFE0F]%N.

(** One entry of [event.results]: the transcript of its first
    alternative, and its [isFinal] flag. *)
Record result := Result { transcript : jsstring; isFinal : bool }.

(** The event passed to [onresult]. *)
Record result_event := ResultEvent { resultIndex : nat; results : list result }.

(** A [SpeechRecognition] object: constructed, started by [start()],
    asked to finish by [stop()], or cut by [abort()]. *)
Inductive recognition := Created | Started | Stopped | Aborted.

(** [r.start()] *)
Definition rec_start (r : recognition) : recognition := Started.

(** [r.stop()]: only a started recognizer has something to stop. *)
Definition rec_stop (r : recognition) : recognition :=
  match r with Started => Stopped | _ => r end.

(** [r.abort()] *)
Definition rec_abort (r : recognition) : recognition := Aborted.

End Page.

(** ** The PCM recorder *)

Module Pcm.

Export Num Page.

(** The body of a request to [/speech-chat]. *)
Record request := Request { audio : jsstring; sampleRate : Z }.

(** What the awaited [fetch] and [res.json()] of [sendVoice] produce:
    a rejection of either, or the parsed body with its two optional
    text fields. *)
Inductive response :=
  | Rejected
  | Body (transcript_field reply_field : option jsstring).

(** The variables of the script, the page elements it writes, and the
    host objects it has created:
    - [streams]: the microphone streams obtained so far, and whether
      their tracks are still live;
    - [graphs]: per recording started, whether its source and its script
      processor are still connected, that is, whether its
      [onaudioprocess] handler still receives frames;
    - [timers]: the intervals set so far, and whether they are active;
    - [requests]: the requests issued to [/speech-chat].
    An element of the page is dereferenced without a null test, so the
    page is taken to contain them all. *)
Record store := Store {
  selectedMode : option jsstring;
  chat : list message;
  micStream : option nat;
  audioContext : option nat;
  input : option nat;
  processor : option nat;
  pcmChunks : list (list byte);
  wavChunks : list (list Z);
  timer : option nat;
  seconds : N;
  recordingBar : display;
  voicePreview : display;
  recordingTime : option N;
  audioPlayback : option (list byte);
  streams : list bool;
  contexts : nat;
  graphs : list bool;
  timers : list bool;
  requests : list request
}.

Definition set_selectedMode v s := Store v (chat s) (micStream s) (audioContext s) (input s) (processor s) (pcmChunks s) (wavChunks s) (timer s) (seconds s) (recordingBar s) (voicePreview s) (recordingTime s) (audioPlayback s) (streams s) (contexts s) (graphs s) (timers s) (requests s).
Definition set_chat v s := Store (selectedMode s) v (micStream s) (audioContext s) (input s) (processor s) (pcmChunks s) (wavChunks s) (timer s) (seconds s) (recordingBar s) (voicePreview s) (recordingTime s) (audioPlayback s) (streams s) (contexts s) (graphs s) (timers s) (requests s).
Definition set_micStream v s := Store (selectedMode s) (chat s) v (audioContext s) (input s) (processor s) (pcmChunks s) (wavChunks s) (timer s) (seconds s) (recordingBar s) (voicePreview s) (recordingTime s) (audioPlayback s) (streams s) (contexts s) (graphs s) (timers s) (requests s).
Definition set_audioContext v s := Store (selectedMode s) (chat s) (micStream s) v (input s) (processor s) (pcmChunks s) (wavChunks s) (timer s) (seconds s) (recordingBar s) (voicePreview s) (recordingTime s) (audioPlayback s) (streams s) (contexts s) (graphs s) (timers s) (requests s).
Definition set_input v s := Store (selectedMode s) (chat s) (micStream s) (audioContext s) v (processor s) (pcmChunks s) (wavChunks s) (timer s) (seconds s) (recordingBar s) (voicePreview s) (recordingTime s) (audioPlayback s) (streams s) (contexts s) (graphs s) (timers s) (requests s).
Definition set_processor v s := Store (selectedMode s) (chat s) (micStream s) (audioContext s) (input s) v (pcmChunks s) (wavChunks s) (timer s) (seconds s) (recordingBar s) (voicePreview s) (recordingTime s) (audioPlayback s) (streams s) (contexts s) (graphs s) (timers s) (requests s).
Definition set_pcmChunks v s := Store (selectedMode s) (chat s) (micStream s) (audioContext s) (input s) (processor s) v (wavChunks s) (timer s) (seconds s) (recordingBar s) (voicePreview s) (recordingTime s) (audioPlayback s) (streams s) (contexts s) (graphs s) (timers s) (requests s).
Definition set_wavChunks v s := Store (selectedMode s) (chat s) (micStream s) (audioContext s) (input s) (processor s) (pcmChunks s) v (timer s) (seconds s) (recordingBar s) (voicePreview s) (recordingTime s) (audioPlayback s) (streams s) (contexts s) (graphs s) (timers s) (requests s).
Definition set_timer v s := Store (selectedMode s) (chat s) (micStream s) (audioContext s) (input s) (processor s) (pcmChunks s) (wavChunks s) v (seconds s) (recordingBar s) (voicePreview s) (recordingTime s) (audioPlayback s) (streams s) (contexts s) (graphs s) (timers s) (requests s).
Definition set_seconds v s := Store (selectedMode s) (chat s) (micStream s) (audioContext s) (input s) (processor s) (pcmChunks s) (wavChunks s) (timer s) v (recordingBar s) (voicePreview s) (recordingTime s) (audioPlayback s) (streams s) (contexts s) (graphs s) (timers s) (requests s).
Definition set_recordingBar v s := Store (selectedMode s) (chat s) (micStream s) (audioContext s) (input s) (processor s) (pcmChunks s) (wavChunks s) (timer s) (seconds s) v (voicePreview s) (recordingTime s) (audioPlayback s) (streams s) (contexts s) (graphs s) (timers s) (requests s).
Definition set_voicePreview v s := Store (selectedMode s) (chat s) (micStream s) (audioContext s) (input s) (processor s) (pcmChunks s) (wavChunks s) (timer s) (seconds s) (recordingBar s) v (recordingTime s) (audioPlayback s) (streams s) (contexts s) (graphs s) (timers s) (requests s).
Definition set_recordingTime v s := Store (selectedMode s) (chat s) (micStream s) (audioContext s) (input s) (processor s) (pcmChunks s) (wavChunks s) (timer s) (seconds s) (recordingBar s) (voicePreview s) v (audioPlayback s) (streams s) (contexts s) (graphs s) (timers s) (requests s).
Definition set_audioPlayback v s := Store (selectedMode s) (chat s) (micStream s) (audioContext s) (input s) (processor s) (pcmChunks s) (wavChunks s) (timer s) (seconds s) (recordingBar s) (voicePreview s) (recordingTime s) v (streams s) (contexts s) (graphs s) (timers s) (requests s).
Definition set_streams v s := Store (selectedMode s) (chat s) (micStream s) (audioContext s) (input s) (processor s) (pcmChunks s) (wavChunks s) (timer s) (seconds s) (recordingBar s) (voicePreview s) (recordingTime s) (audioPlayback s) v (contexts s) (graphs s) (timers s) (requests s).
Definition set_contexts v s := Store (selectedMode s) (chat s) (micStream s) (audioContext s) (input s) (processor s) (pcmChunks s) (wavChunks s) (timer s) (seconds s) (recordingBar s) (voicePreview s) (recordingTime s) (audioPlayback s) (streams s) v (graphs s) (timers s) (requests s).
Definition set_graphs v s := Store (selectedMode s) (chat s) (micStream s) (audioContext s) (input s) (processor s) (pcmChunks s) (wavChunks s) (timer s) (seconds s) (recordingBar s) (voicePreview s) (recordingTime s) (audioPlayback s) (streams s) (contexts s) v (timers s) (requests s).
Definition set_timers v s := Store (selectedMode s) (chat s) (micStream s) (audioContext s) (input s) (processor s) (pcmChunks s) (wavChunks s) (timer s) (seconds s) (recordingBar s) (voicePreview s) (recordingTime s) (audioPlayback s) (streams s) (contexts s) (graphs s) v (requests s).
Definition set_requests v s := Store (selectedMode s) (chat s) (micStream s) (audioContext s) (input s) (processor s) (pcmChunks s) (wavChunks s) (timer s) (seconds s) (recordingBar s) (voicePreview s) (recordingTime s) (audioPlayback s) (streams s) (contexts s) (graphs s) (timers s) v.

(** [addMessage(text, sender)] *)
Definition addMessage (text : jsstring) (who : sender) (s : store) : store :=
  set_chat (chat s ++ [Message who text]) s.

(** How a call ended: it returned, or it threw (for an [async] function:
    its promise was rejected), with the store as it was left. *)
Inductive outcome := Returned (s : store) | Threw (s : store).

(** *** Conversion of a frame (the loop of [onaudioprocess]) *)

(** [Math.max(-1, Math.min(1, x)) * 0x7fff], stored into an [Int16Array]. *)
Definition to_pcm16 (x : number) : Z :=
  ToInt16 (mul (max (of_Z (-1)) (min (of_Z 1) x)) (of_Z 0x7fff)).

(** [new Uint8Array(pcm16.buffer)]: the bytes behind an [Int16Array].
    Typed arrays keep their elements in the byte order of the host, which
    is taken to be little-endian.  The two views alias one buffer; nothing
    writes to it after the handler has pushed them. *)
Definition buffer_bytes (pcm16 : list Z) : list byte :=
  concat (map (fun v => [Js.u8 v; Js.u8 (v / 256)]) pcm16).

(** [processor.onaudioprocess], on the channel data of the event. *)
Definition onaudioprocess (data : list number) (s : store) : store :=
  let pcm16 := map to_pcm16 data in
  set_wavChunks (wavChunks s ++ [pcm16])
    (set_pcmChunks (pcmChunks s ++ [buffer_bytes pcm16]) s).

(** The interval handler set by [startRecording]. *)
Definition ontick (s : store) : store :=
  let seconds' := (seconds s + 1)%N in
  set_recordingTime (Some seconds') (set_seconds seconds' s).

(** *** [startRecording] *)

(** The function is [async]: it runs up to its [await] of
    [getUserMedia], and is resumed with the microphone's answer. *)
Inductive start_step :=
  | StartRefused (s : store)
  | AwaitingMicrophone (s : store).

Definition startRecording (s : store) : start_step :=
  if bool_decide (selectedMode s ≠ Some (Js.lit "ask")) then
    StartRefused
      (addMessage (warning_sign ++ Js.lit " Voice works only in chat mode.")
         Bot s)
  else AwaitingMicrophone s.

(** The capture backend of the browser: whether [getUserMedia] resolves,
    and whether [new AudioContext] succeeds.  The other constructors of
    the audio graph are taken to succeed. *)
Record backend := Backend { microphone : bool; audio_context : bool }.

Definition startRecording_resume (b : backend) (s : store) : outcome :=
  if negb (microphone b) then Threw s else
  let s := set_micStream (Some (length (streams s)))
             (set_streams (streams s ++ [true]) s) in
  if negb (audio_context b) then Threw s else
  let s := set_audioContext (Some (contexts s))
             (set_contexts (S (contexts s)) s) in
  let node := length (graphs s) in
  let s := set_input (Some node) s in
  let s := set_processor (Some node) s in
  let s := set_pcmChunks [] s in
  let s := set_wavChunks [] s in
  let s := set_seconds 0%N s in
  let s := set_recordingBar DisplayBlock s in
  let s := set_voicePreview DisplayNone s in
  let s := set_timer (Some (length (timers s)))
             (set_timers (timers s ++ [true]) s) in
  (* processor.onaudioprocess = ...; input.connect(processor);
     processor.connect(audioContext.destination) *)
  Returned (set_graphs (graphs s ++ [true]) s).

(** *** Events of the host *)

(** A frame delivered to the handler of the [node]th recording's
    processor; [None] if that processor is not connected. *)
Definition audio_event (node : nat) (data : list number) (s : store)
    : option store :=
  match graphs s !! node with
  | Some true => Some (onaudioprocess data s)
  | _ => None
  end.

(** A tick of the [i]th interval; [None] if it is not active. *)
Definition timer_event (i : nat) (s : store) : option store :=
  match timers s !! i with
  | Some true => Some (ontick s)
  | _ => None
  end.

(** *** [stopRecording] and [discardRecording] *)

(** [clearInterval(timer)] *)
Definition clearInterval (t : option nat) (s : store) : store :=
  match t with
  | Some i => set_timers (<[i := false]> (timers s)) s
  | None => s
  end.

Definition stopRecording (s : store) : outcome :=
  let s := clearInterval (timer s) s in
  let s := set_recordingBar DisplayNone s in
  match processor s with
  | None => Threw s
  | Some p =>
      let s := set_graphs (<[p := false]> (graphs s)) s in
      match input s with
      | None => Threw s
      | Some i =>
          let s := set_graphs (<[i := false]> (graphs s)) s in
          match micStream s with
          | None => Threw s
          | Some m =>
              let s := set_streams (<[m := false]> (streams s)) s in
              match Wav.createWavBlob (wavChunks s) 16000 with
              | None => Threw s
              | Some wavBlob =>
                  Returned (set_voicePreview DisplayBlock
                              (set_audioPlayback (Some wavBlob) s))
              end
          end
      end
  end.

Definition discardRecording (s : store) : store :=
  set_wavChunks [] (set_pcmChunks [] (set_voicePreview DisplayNone s)).

(** *** [sendVoice] *)

(** [merged.set(chunk, offset)]: throws RangeError ([None]) when the
    chunk does not fit at [offset]. *)
Definition set_at (chunk : list byte) (offset : nat) (merged : list byte)
    : option (list byte) :=
  if (offset + length chunk <=? length merged)%nat then
    Some (take offset merged ++ chunk ++ drop (offset + length chunk) merged)
  else None.

(** [pcmChunks.forEach(chunk => { merged.set(chunk, offset);
    offset += chunk.length; })] *)
Fixpoint merge_loop (chunks : list (list byte)) (merged : list byte)
    (offset : nat) : option (list byte) :=
  match chunks with
  | [] => Some merged
  | chunk :: chunks' =>
      merged' ← set_at chunk offset merged;
      merge_loop chunks' merged' (offset + length chunk)
  end.

(** The merge of [sendVoice]: [total], [merged], and the loop. *)
Definition merge (pcmChunks : list (list byte)) : option (list byte) :=
  let total := Wav.total_length pcmChunks in
  merge_loop pcmChunks (replicate total x00) 0.

(** [sendVoice] is [async]: it runs up to its [await] of [fetch] and is
    resumed with the response. *)
Inductive send_step :=
  | NothingToSend (s : store)
  | SendThrew (s : store)
  | AwaitingResponse (s : store).

Definition sendVoice (s : store) : send_step :=
  match pcmChunks s with
  | [] =>
      NothingToSend
        (addMessage (warning_sign ++ Js.lit " No audio recorded.") Bot s)
  | _ :: _ =>
      (* U+1F3A7, " Processing voice", U+2026 *)
      let s := addMessage ([0xD83C; 0xDFA7]%N ++ Js.lit " Processing voice"
                           ++ [0x2026]%N) Bot s in
      match merge (pcmChunks s) ≫= Transport.uint8ToBase64 with
      | None => SendThrew s
      | Some base64Audio =>
          AwaitingResponse
            (set_requests (requests s ++ [Request base64Audio 16000]) s)
      end
  end.

(** The text of an optional field, empty when absent (both are falsy). *)
Definition field (f : option jsstring) : jsstring := default [] f.

Definition sendVoice_resume (r : response) (s : store) : store :=
  let s :=
    match r with
    | Body transcript reply =>
        let s := if Js.truthy (field transcript)
                 then addMessage (field transcript) User s else s in
        addMessage (Js.or_else (field reply)
                      (warning_sign ++ Js.lit " No reply")) Bot s
    | Rejected =>
        addMessage (warning_sign ++ Js.lit " Failed to send voice.") Bot s
    end in
  discardRecording s.

(** [handleSelection(mode)]; the button container and the home button
    only change their display and are left out, as is the opening of the
    survey form. *)
Definition handleSelection (mode : jsstring) (s : store) : store :=
  let s := set_selectedMode (Some mode) s in
  if bool_decide (mode = Js.lit "ask") then
    addMessage ([0xD83D; 0xDCAC]%N
                ++ Js.lit " You can now ask questions or use voice.") Bot s
  else
    addMessage ([0xD83D; 0xDCDD]%N ++ Js.lit " Opening survey form...") Bot s.

(** The store when the script has been loaded: no mode chosen, nothing
    recorded, no host object created. *)
Definition initial : store :=
  Store None [] None None None None [] [] None 0%N
    DisplayInitial DisplayInitial None None [] 0 [] [] [].

(** *** Runs *)

(** What can happen to the recorder: a click on one of its buttons, the
    resumption of an [async] handler with what it awaited, a frame from a
    connected processor, a tick of an active interval.  Resumptions are
    not matched with the calls they belong to, so the runs below include
    every run of these handlers (and more).  The text chat ([sendChat])
    and the home button ([resetChat]) touch none of the recorder's
    buffers or host objects and are left out. *)
Inductive event :=
  | Select (mode : jsstring)
  | StartCall
  | StartResume (b : backend)
  | Stop
  | Discard
  | SendCall
  | SendResume (r : response)
  | Audio (node : nat) (data : list number)
  | Tick (i : nat).

Definition after (o : outcome) : store :=
  match o with Returned s | Threw s => s end.

Definition step (e : event) (s : store) : option store :=
  match e with
  | Select mode => Some (handleSelection mode s)
  | StartCall =>
      Some (match startRecording s with
            | StartRefused s' | AwaitingMicrophone s' => s'
            end)
  | StartResume b => Some (after (startRecording_resume b s))
  | Stop => Some (after (stopRecording s))
  | Discard => Some (discardRecording s)
  | SendCall =>
      Some (match sendVoice s with
            | NothingToSend s' | SendThrew s' | AwaitingResponse s' => s'
            end)
  | SendResume r => Some (sendVoice_resume r s)
  | Audio node data => audio_event node data s
  | Tick i => timer_event i s
  end.

Fixpoint run (es : list event) (s : store) : option store :=
  match es with
  | [] => Some s
  | e :: es' => s' ← step e s; run es' s'
  end.

Definition reachable (s : store) : Prop :=
  exists es : list event, run es initial = Some s.

(** Every byte chunk is the view of the [Int16Array] pushed with it. *)
Definition lockstep (s : store) : Prop :=
  pcmChunks s = map buffer_bytes (wavChunks s).

(** The frames of a recording, delivered in order. *)
Definition record_frames (frames : list (list number)) (s : store) : store :=
  fold_left (fun s data => onaudioprocess data s) frames s.

(** Host objects that are still live although no variable of the script
    refers to them any more: an active interval other than [timer], a
    connected processor other than [processor] and [input], a live
    stream other than [micStream]. *)
Definition stray_timer (i : nat) (s : store) : Prop :=
  timers s !! i = Some true /\ timer s <> Some i.

Definition stray_processor (i : nat) (s : store) : Prop :=
  graphs s !! i = Some true /\ processor s <> Some i /\ input s <> Some i.

Definition stray_stream (i : nat) (s : store) : Prop :=
  streams s !! i = Some true /\ micStream s <> Some i.

(** The variables and host objects the stray predicates read. *)
Definition host_view (s : store) :=
  (timers s, timer s, graphs s, processor s, input s, streams s, micStream s).

(** The buffers and the requests issued so far. *)
Definition data_view (s : store) := (pcmChunks s, wavChunks s, requests s).

(** A sample as the conversion loop stores it. *)
Definition stored_sample (v : Z) : Prop := -32767 <= v <= 32767.

(** A request whose [audio] is the Base64 text of [samples], two bytes
    each, low byte first, and whose [sampleRate] is 16000. *)
Definition carries (samples : list Z) (req : request) : Prop :=
  sampleRate req = 16000
  /\ Base64.decode (audio req) = Some (concat (map Wav.le16 samples)).

(** What holds of the buffers and requests in every run: the byte chunks
    are the views of the sample chunks, every sample is a stored sample,
    and every request carries such samples. *)
Definition sound (s : store) : Prop :=
  lockstep s
  /\ Forall (Forall stored_sample) (wavChunks s)
  /\ Forall (fun req => exists samples,
                Forall stored_sample samples /\ carries samples req)
       (requests s).

End Pcm.

(** ** Live speech-to-text with a session counter *)

Module LiveToken.

Export Page.

(** The recognizer objects the script has constructed, each with the
    value of [currentSession] its handlers closed over. *)
Record recognizer_object := RecognizerObject {
  r_session : N;
  r_state : recognition
}.

(** An interval set by [startRecording]: the [currentSession] and the
    [seconds] of its handler's closure, and whether it is still active. *)
Record interval := Interval {
  t_session : N;
  t_seconds : N;
  t_active : bool
}.

(** The variables of the script, the page elements it writes (an element
    the page lacks is [None]; every use is guarded by a null test), and
    the host objects it has created.  [SpeechRecognition] tells whether
    the browser has the constructor; [requests] are the messages posted
    to [/ask]. *)
Record store := Store {
  selectedMode : option jsstring;
  SpeechRecognition : bool;
  recognizer : option nat;
  isRecording : bool;
  speechSessionId : N;
  chatBody : option (list message);
  userInput : option jsstring;
  recordingBar : option display;
  voicePreview : option display;
  recordingTime : option N;
  recognizers : list recognizer_object;
  timers : list interval;
  requests : list jsstring
}.

Definition set_selectedMode v s := Store v (SpeechRecognition s) (recognizer s) (isRecording s) (speechSessionId s) (chatBody s) (userInput s) (recordingBar s) (voicePreview s) (recordingTime s) (recognizers s) (timers s) (requests s).
Definition set_SpeechRecognition v s := Store (selectedMode s) v (recognizer s) (isRecording s) (speechSessionId s) (chatBody s) (userInput s) (recordingBar s) (voicePreview s) (recordingTime s) (recognizers s) (timers s) (requests s).
Definition set_recognizer v s := Store (selectedMode s) (SpeechRecognition s) v (isRecording s) (speechSessionId s) (chatBody s) (userInput s) (recordingBar s) (voicePreview s) (recordingTime s) (recognizers s) (timers s) (requests s).
Definition set_isRecording v s := Store (selectedMode s) (SpeechRecognition s) (recognizer s) v (speechSessionId s) (chatBody s) (userInput s) (recordingBar s) (voicePreview s) (recordingTime s) (recognizers s) (timers s) (requests s).
Definition set_speechSessionId v s := Store (selectedMode s) (SpeechRecognition s) (recognizer s) (isRecording s) v (chatBody s) (userInput s) (recordingBar s) (voicePreview s) (recordingTime s) (recognizers s) (timers s) (requests s).
Definition set_chatBody v s := Store (selectedMode s) (SpeechRecognition s) (recognizer s) (isRecording s) (speechSessionId s) v (userInput s) (recordingBar s) (voicePreview s) (recordingTime s) (recognizers s) (timers s) (requests s).
Definition set_userInput v s := Store (selectedMode s) (SpeechRecognition s) (recognizer s) (isRecording s) (speechSessionId s) (chatBody s) v (recordingBar s) (voicePreview s) (recordingTime s) (recognizers s) (timers s) (requests s).
Definition set_recordingBar v s := Store (selectedMode s) (SpeechRecognition s) (recognizer s) (isRecording s) (speechSessionId s) (chatBody s) (userInput s) v (voicePreview s) (recordingTime s) (recognizers s) (timers s) (requests s).
Definition set_voicePreview v s := Store (selectedMode s) (SpeechRecognition s) (recognizer s) (isRecording s) (speechSessionId s) (chatBody s) (userInput s) (recordingBar s) v (recordingTime s) (recognizers s) (timers s) (requests s).
Definition set_recordingTime v s := Store (selectedMode s) (SpeechRecognition s) (recognizer s) (isRecording s) (speechSessionId s) (chatBody s) (userInput s) (recordingBar s) (voicePreview s) v (recognizers s) (timers s) (requests s).
Definition set_recognizers v s := Store (selectedMode s) (SpeechRecognition s) (recognizer s) (isRecording s) (speechSessionId s) (chatBody s) (userInput s) (recordingBar s) (voicePreview s) (recordingTime s) v (timers s) (requests s).
Definition set_timers v s := Store (selectedMode s) (SpeechRecognition s) (recognizer s) (isRecording s) (speechSessionId s) (chatBody s) (userInput s) (recordingBar s) (voicePreview s) (recordingTime s) (recognizers s) v (requests s).
Definition set_requests v s := Store (selectedMode s) (SpeechRecognition s) (recognizer s) (isRecording s) (speechSessionId s) (chatBody s) (userInput s) (recordingBar s) (voicePreview s) (recordingTime s) (recognizers s) (timers s) v.

(** [if (el) el.prop = v] *)
Definition assign {A} (v : A) (el : option A) : option A := (fun _ => v) <$> el.

(** [addMessage(text, sender)] *)
Definition addMessage (text : jsstring) (who : sender) (s : store) : store :=
  set_chatBody ((fun body => body ++ [Message who text]) <$> chatBody s) s.

(** [clearInputHard()]; blurring and focusing the field is left out. *)
Definition clearInputHard (s : store) : store :=
  set_userInput (assign [] (userInput s)) s.

(** [try { recognizer.abort(); } catch {} try { recognizer.stop(); } catch {}] *)
Definition teardown (r : recognizer_object) : recognizer_object :=
  RecognizerObject (r_session r) (rec_stop (rec_abort (r_state r))).

(** [resetSpeechState()] *)
Definition resetSpeechState (s : store) : store :=
  let s := set_speechSessionId (speechSessionId s + 1)%N s in
  let s := set_isRecording false s in
  let s :=
    match recognizer s with
    | Some i =>
        set_recognizer None
          (set_recognizers (alter teardown i (recognizers s)) s)
    | None => s
    end in
  let s := set_recordingBar (assign DisplayNone (recordingBar s)) s in
  let s := set_voicePreview (assign DisplayNone (voicePreview s)) s in
  clearInputHard s.

(** The recognizers after [resetSpeechState]: the current one, if any,
    has been aborted and stopped. *)
Definition torn_down (s : store) : list recognizer_object :=
  match recognizer s with
  | Some i => alter teardown i (recognizers s)
  | None => recognizers s
  end.

(** [startRecording()] *)
Definition startRecording (s : store) : store :=
  if isRecording s then s else
  if bool_decide (selectedMode s ≠ Some (Js.lit "ask")) then
    addMessage (warning_sign ++ Js.lit " Voice works only in chat mode.") Bot s
  else if negb (SpeechRecognition s) then
    addMessage (warning_sign ++ Js.lit " Speech recognition not supported.")
      Bot s
  else
    let s := resetSpeechState s in
    let s := set_isRecording true s in
    let currentSession := speechSessionId s in
    let s := set_recognizer (Some (length (recognizers s)))
               (set_recognizers
                  (recognizers s ++ [RecognizerObject currentSession Created])
                  s) in
    let s := set_recordingBar (assign DisplayBlock (recordingBar s)) s in
    let s := set_recordingTime (assign 0%N (recordingTime s)) s in
    let s := set_timers (timers s ++ [Interval currentSession 0 true]) s in
    (* recognizer.start() *)
    match recognizer s with
    | Some i =>
        set_recognizers
          (alter (fun r => RecognizerObject (r_session r) (rec_start (r_state r)))
             i (recognizers s)) s
    | None => s
    end.

(** The handler of the [i]th interval, whose closure holds [t]. *)
Definition ontick (i : nat) (t : interval) (s : store) : store :=
  if negb (isRecording s) || bool_decide (t_session t ≠ speechSessionId s)
  then set_timers (<[i := Interval (t_session t) (t_seconds t) false]> (timers s)) s
  else
    let seconds := (t_seconds t + 1)%N in
    set_recordingTime (assign seconds (recordingTime s))
      (set_timers (<[i := Interval (t_session t) seconds true]> (timers s)) s).

(** The loop of [onresult]: [text += event.results[i][0].transcript] for
    [i] from [event.resultIndex]. *)
Definition joined (event : result_event) : jsstring :=
  fold_left (fun text r => text ++ transcript r)
    (drop (resultIndex event) (results event)) [].

(** [recognizer.onresult], registered while [currentSession] was the
    session counter. *)
Definition onresult (currentSession : N) (event : result_event) (s : store)
    : store :=
  if negb (isRecording s) || bool_decide (currentSession ≠ speechSessionId s)
  then s
  else set_userInput (assign (Js.trim (joined event)) (userInput s)) s.

(** [recognizer.onerror] *)
Definition onerror (s : store) : store := resetSpeechState s.

(** Events of the host: a tick of the [i]th interval ([None] if it is
    not active), a result or an error of the [i]th recognizer ([None] if
    there is no such recognizer).  A recognizer may still deliver events
    after [stop()] or [abort()] has been requested. *)
Definition timer_event (i : nat) (s : store) : option store :=
  t ← timers s !! i; if t_active t then Some (ontick i t s) else None.

Definition result_event_of (i : nat) (event : result_event) (s : store)
    : option store :=
  r ← recognizers s !! i; Some (onresult (r_session r) event s).

Definition error_event_of (i : nat) (s : store) : option store :=
  r ← recognizers s !! i; Some (onerror s).

(** [stopRecording()] *)
Definition stopRecording (s : store) : store :=
  if negb (isRecording s) then s else
  let s := set_isRecording false s in
  let s :=
    match recognizer s with
    | Some i =>
        set_recognizers
          (alter (fun r => RecognizerObject (r_session r) (rec_stop (r_state r)))
             i (recognizers s)) s
    | None => s
    end in
  let s := set_recordingBar (assign DisplayNone (recordingBar s)) s in
  set_voicePreview (assign DisplayBlock (voicePreview s)) s.

(** [sendVoice] is [async]: it runs up to its [await] of [fetch]. *)
Inductive send_step :=
  | NoInputField (s : store)
  | NothingToSend (s : store)
  | AwaitingResponse (s : store).

Definition sendVoice (s : store) : send_step :=
  match userInput s with
  | None => NoInputField s
  | Some value =>
      let finalText := Js.trim value in
      if negb (Js.truthy finalText) then
        NothingToSend
          (addMessage (warning_sign ++ Js.lit " No speech detected.") Bot s)
      else
        let s := resetSpeechState s in
        let s := addMessage finalText User s in
        AwaitingResponse (set_requests (requests s ++ [finalText]) s)
  end.

(** The awaited answer of [/ask]: [None] if [fetch] or [res.json()]
    rejected, else the [reply] field (empty when absent). *)
Definition sendVoice_resume (reply : option jsstring) (s : store) : store :=
  match reply with
  | Some r => addMessage (Js.or_else r (warning_sign ++ Js.lit " No reply")) Bot s
  | None => addMessage (warning_sign ++ Js.lit " Server error") Bot s
  end.

(** [handleSelection(mode)]; the button container, the home button and
    the opening of the survey form are left out. *)
Definition handleSelection (mode : jsstring) (s : store) : store :=
  let s := resetSpeechState s in
  let s := set_selectedMode (Some mode) s in
  if bool_decide (mode = Js.lit "ask") then
    addMessage ([0xD83D; 0xDCAC]%N
                ++ Js.lit " You can now ask questions or use voice.") Bot s
  else
    addMessage ([0xD83D; 0xDCDD]%N ++ Js.lit " Opening survey form...") Bot s.

(** The store when the script has been loaded on a page that has every
    element, in a browser with or without speech recognition. *)
Definition initial (supported : bool) : store :=
  Store None supported None false 0%N (Some []) (Some [])
    (Some DisplayInitial) (Some DisplayInitial) (Some 0%N) [] [] [].

(** [resetChat()]; the button container and the home button are left
    out.  The greeting opens with U+1F44B. *)
Definition resetChat (s : store) : store :=
  let s := set_chatBody (assign [] (chatBody s)) s in
  let s := resetSpeechState s in
  let s := addMessage ([0xD83D; 0xDC4B]%N
                       ++ Js.lit " Hey! I'm OlyphAI. How can I help you today?")
             Bot s in
  set_selectedMode None s.

(** [sendChat] is [async]: it runs up to its [await] of [fetch], and is
    resumed like [sendVoice] (the two handlers end with the same code). *)
Inductive chat_step :=
  | ChatIgnored (s : store)
  | ChatAwaiting (s : store).

Definition sendChat (s : store) : chat_step :=
  match userInput s with
  | None => ChatIgnored s
  | Some value =>
      if bool_decide (selectedMode s ≠ Some (Js.lit "ask")) then ChatIgnored s
      else
        let msg := Js.trim value in
        if negb (Js.truthy msg) then ChatIgnored s
        else
          let s := resetSpeechState s in
          let s := addMessage msg User s in
          ChatAwaiting (set_requests (requests s ++ [msg]) s)
  end.

Definition sendChat_resume := sendVoice_resume.

(** *** Runs *)

(** What can happen to the widget: a click on one of its buttons
    ([discardVoiceBtn] is bound to [resetSpeechState]), the user editing
    the input field, the answer to a pending request, a tick of an
    active interval, a result or an error of a recognizer.  Answers are
    not matched with the requests they belong to, so the runs below
    include every run of the script (and more). *)
Inductive event :=
  | Select (mode : jsstring)
  | Home
  | Mic
  | StopButton
  | Discard
  | SendChatCall
  | SendVoiceCall
  | Reply (reply : option jsstring)
  | Edit (text : jsstring)
  | Tick (i : nat)
  | RecResult (i : nat) (ev : result_event)
  | RecError (i : nat).

Definition step (e : event) (s : store) : option store :=
  match e with
  | Select mode => Some (handleSelection mode s)
  | Home => Some (resetChat s)
  | Mic => Some (startRecording s)
  | StopButton => Some (stopRecording s)
  | Discard => Some (resetSpeechState s)
  | SendChatCall =>
      Some (match sendChat s with ChatIgnored s' | ChatAwaiting s' => s' end)
  | SendVoiceCall =>
      Some (match sendVoice s with
            | NoInputField s' | NothingToSend s' | AwaitingResponse s' => s'
            end)
  | Reply reply => Some (sendVoice_resume reply s)
  | Edit text => Some (set_userInput (assign text (userInput s)) s)
  | Tick i => timer_event i s
  | RecResult i ev => result_event_of i ev s
  | RecError i => error_event_of i s
  end.

Fixpoint run (es : list event) (s : store) : option store :=
  match es with
  | [] => Some s
  | e :: es' => s' ← step e s; run es' s'
  end.

(** A store as the script finds it when it is loaded, on any page and in
    any browser: nothing recorded, no host object created. *)
Definition loaded (s : store) : Prop :=
  recognizer s = None /\ isRecording s = false /\ recognizers s = []
  /\ timers s = [] /\ requests s = [].

Definition reachable (s : store) : Prop :=
  exists (s0 : store) (es : list event), loaded s0 /\ run es s0 = Some s.

(** The session tokens the handlers of the recognizers closed over. *)
Definition tokens (s : store) : list N := map r_session (recognizers s).

(** The variables that decide which handlers are live. *)
Definition session_view (s : store) :=
  (selectedMode s, recognizer s, isRecording s, speechSessionId s,
   recognizers s).

(** What holds of the session variables in every run: no handler holds
    a token above the session counter; a recognizer whose handlers hold
    the current token is the last one made; while a recording is running
    the chat mode is on and the current recognizer is started and holds
    the current token. *)
Definition well_formed (s : store) : Prop :=
  Forall (fun c => (c <= speechSessionId s)%N) (tokens s)
  /\ (forall i, tokens s !! i = Some (speechSessionId s) ->
                S i = length (tokens s))
  /\ (isRecording s = true ->
      selectedMode s = Some (Js.lit "ask")
      /\ exists i, recognizer s = Some i
                   /\ recognizers s !! i
                      = Some (RecognizerObject (speechSessionId s) Started)).

(** What the two sending handlers do when they post the trimmed text of
    the input field, which holds [value]. *)
Definition posts (value : jsstring) (s s' : store) : Prop :=
  userInput s = Some value /\ Js.trim value <> []
  /\ isRecording s' = false
  /\ speechSessionId s' = (speechSessionId s + 1)%N
  /\ tokens s' = tokens s
  /\ recognizer s' = None
  /\ userInput s' = Some []
  /\ requests s' = requests s ++ [Js.trim value]
  /\ chatBody s'
     = (fun body => body ++ [Message User (Js.trim value)]) <$> chatBody s.

(** A text as the widget posts it to [/ask]: not empty, and without
    white space at either end. *)
Definition posted_text (r : jsstring) : Prop := r <> [] /\ Js.trim r = r.

End LiveToken.

(** ** Live speech-to-text, first revision *)

Module LiveSimple.

Export Page.

(** An interval set by [startRecording]: the [seconds] of its handler's
    closure, and whether it is still active. *)
Record interval := Interval { t_seconds : N; t_active : bool }.

(** The variables of the script, the page elements it writes (an element
    the page lacks is [None]), and the host objects it has created.
    [liveTranscript] holds the text of the results the recognizer marked
    final. *)
Record store := Store {
  selectedMode : option jsstring;
  SpeechRecognition : bool;
  liveRecognizer : option nat;
  liveTranscript : jsstring;
  isRecording : bool;
  chatBody : option (list message);
  userInput : option jsstring;
  recordingBar : option display;
  voicePreview : option display;
  recordingTime : option N;
  recognizers : list recognition;
  timers : list interval;
  requests : list jsstring
}.

Definition set_selectedMode v s := Store v (SpeechRecognition s) (liveRecognizer s) (liveTranscript s) (isRecording s) (chatBody s) (userInput s) (recordingBar s) (voicePreview s) (recordingTime s) (recognizers s) (timers s) (requests s).
Definition set_SpeechRecognition v s := Store (selectedMode s) v (liveRecognizer s) (liveTranscript s) (isRecording s) (chatBody s) (userInput s) (recordingBar s) (voicePreview s) (recordingTime s) (recognizers s) (timers s) (requests s).
Definition set_liveRecognizer v s := Store (selectedMode s) (SpeechRecognition s) v (liveTranscript s) (isRecording s) (chatBody s) (userInput s) (recordingBar s) (voicePreview s) (recordingTime s) (recognizers s) (timers s) (requests s).
Definition set_liveTranscript v s := Store (selectedMode s) (SpeechRecognition s) (liveRecognizer s) v (isRecording s) (chatBody s) (userInput s) (recordingBar s) (voicePreview s) (recordingTime s) (recognizers s) (timers s) (requests s).
Definition set_isRecording v s := Store (selectedMode s) (SpeechRecognition s) (liveRecognizer s) (liveTranscript s) v (chatBody s) (userInput s) (recordingBar s) (voicePreview s) (recordingTime s) (recognizers s) (timers s) (requests s).
Definition set_chatBody v s := Store (selectedMode s) (SpeechRecognition s) (liveRecognizer s) (liveTranscript s) (isRecording s) v (userInput s) (recordingBar s) (voicePreview s) (recordingTime s) (recognizers s) (timers s) (requests s).
Definition set_userInput v s := Store (selectedMode s) (SpeechRecognition s) (liveRecognizer s) (liveTranscript s) (isRecording s) (chatBody s) v (recordingBar s) (voicePreview s) (recordingTime s) (recognizers s) (timers s) (requests s).
Definition set_recordingBar v s := Store (selectedMode s) (SpeechRecognition s) (liveRecognizer s) (liveTranscript s) (isRecording s) (chatBody s) (userInput s) v (voicePreview s) (recordingTime s) (recognizers s) (timers s) (requests s).
Definition set_voicePreview v s := Store (selectedMode s) (SpeechRecognition s) (liveRecognizer s) (liveTranscript s) (isRecording s) (chatBody s) (userInput s) (recordingBar s) v (recordingTime s) (recognizers s) (timers s) (requests s).
Definition set_recordingTime v s := Store (selectedMode s) (SpeechRecognition s) (liveRecognizer s) (liveTranscript s) (isRecording s) (chatBody s) (userInput s) (recordingBar s) (voicePreview s) v (recognizers s) (timers s) (requests s).
Definition set_recognizers v s := Store (selectedMode s) (SpeechRecognition s) (liveRecognizer s) (liveTranscript s) (isRecording s) (chatBody s) (userInput s) (recordingBar s) (voicePreview s) (recordingTime s) v (timers s) (requests s).
Definition set_timers v s := Store (selectedMode s) (SpeechRecognition s) (liveRecognizer s) (liveTranscript s) (isRecording s) (chatBody s) (userInput s) (recordingBar s) (voicePreview s) (recordingTime s) (recognizers s) v (requests s).
Definition set_requests v s := Store (selectedMode s) (SpeechRecognition s) (liveRecognizer s) (liveTranscript s) (isRecording s) (chatBody s) (userInput s) (recordingBar s) (voicePreview s) (recordingTime s) (recognizers s) (timers s) v.

(** [if (el) el.prop = v] *)
Definition assign {A} (v : A) (el : option A) : option A := (fun _ => v) <$> el.

(** [addMessage(text, sender)] *)
Definition addMessage (text : jsstring) (who : sender) (s : store) : store :=
  set_chatBody ((fun body => body ++ [Message who text]) <$> chatBody s) s.

(** [startRecording()] *)
Definition startRecording (s : store) : store :=
  if isRecording s then s else
  if bool_decide (selectedMode s ≠ Some (Js.lit "ask")) then
    addMessage (warning_sign ++ Js.lit " Voice works only in chat mode.") Bot s
  else if negb (SpeechRecognition s) then
    addMessage
      (warning_sign
       ++ Js.lit " Speech recognition not supported in this browser.") Bot s
  else
    let i := length (recognizers s) in
    let s := set_liveRecognizer (Some i)
               (set_recognizers (recognizers s ++ [Created]) s) in
    let s := set_liveTranscript [] s in
    let s := set_isRecording true s in
    let s := set_recordingBar (assign DisplayBlock (recordingBar s)) s in
    let s := set_voicePreview (assign DisplayNone (voicePreview s)) s in
    let s := set_recordingTime (assign 0%N (recordingTime s)) s in
    let s := set_timers (timers s ++ [Interval 0 true]) s in
    (* liveRecognizer.start() *)
    set_recognizers (alter rec_start i (recognizers s)) s.

(** The handler of the [i]th interval, whose closure holds [t]. *)
Definition ontick (i : nat) (t : interval) (s : store) : store :=
  if negb (isRecording s)
  then set_timers (<[i := Interval (t_seconds t) false]> (timers s)) s
  else
    let seconds := (t_seconds t + 1)%N in
    set_recordingTime (assign seconds (recordingTime s))
      (set_timers (<[i := Interval seconds true]> (timers s)) s).

(** The loop of [onresult] over the entries from [event.resultIndex]:
    the pair of its variables [interim] and [finalText]. *)
Definition scan (event : result_event) : jsstring * jsstring :=
  fold_left
    (fun '(interim, finalText) r =>
       let txt := transcript r in
       if isFinal r then (interim, finalText ++ txt ++ Js.lit " ")
       else (interim ++ txt, finalText))
    (drop (resultIndex event) (results event)) ([], []).

(** [liveRecognizer.onresult] *)
Definition onresult (event : result_event) (s : store) : store :=
  let '(interim, finalText) := scan event in
  let s := set_liveTranscript (liveTranscript s ++ finalText) s in
  set_userInput (assign (Js.trim (liveTranscript s ++ interim)) (userInput s)) s.

(** [stopRecording()] *)
Definition stopRecording (s : store) : store :=
  if negb (isRecording s) then s else
  let s := set_isRecording false s in
  let s :=
    match liveRecognizer s with
    | Some i =>
        set_liveRecognizer None
          (set_recognizers (alter rec_stop i (recognizers s)) s)
    | None => s
    end in
  let s := set_recordingBar (assign DisplayNone (recordingBar s)) s in
  (* Freeze final text *)
  let s :=
    if Js.truthy (liveTranscript s)
    then set_userInput (assign (Js.trim (liveTranscript s)) (userInput s)) s
    else s in
  set_voicePreview (assign DisplayBlock (voicePreview s)) s.

(** [liveRecognizer.onerror] *)
Definition onerror (s : store) : store := stopRecording s.

(** [discardRecording()] *)
Definition discardRecording (s : store) : store :=
  let s := set_liveTranscript [] s in
  let s := set_userInput (assign [] (userInput s)) s in
  set_voicePreview (assign DisplayNone (voicePreview s)) s.

(** The store when the script has been loaded on a page that has every
    element, with the chat mode already chosen. *)
Definition ready : store :=
  Store (Some (Js.lit "ask")) true None [] false (Some []) (Some [])
    (Some DisplayInitial) (Some DisplayInitial) (Some 0%N) [] [] [].

(** [sendVoice] is [async]: it runs up to its [await] of [fetch]. *)
Inductive send_step :=
  | NoInputField (s : store)
  | NothingToSend (s : store)
  | AwaitingResponse (s : store).

Definition sendVoice (s : store) : send_step :=
  match userInput s with
  | None => NoInputField s
  | Some value =>
      let finalText := Js.trim value in
      if negb (Js.truthy finalText) then
        NothingToSend
          (addMessage (warning_sign ++ Js.lit " No speech detected.") Bot s)
      else
        let s := addMessage finalText User s in
        AwaitingResponse (set_requests (requests s ++ [finalText]) s)
  end.

(** The awaited answer of [/ask]: [None] if [fetch] or [res.json()]
    rejected, else the [reply] field (empty when absent); then
    [discardRecording()]. *)
Definition sendVoice_resume (reply : option jsstring) (s : store) : store :=
  let s :=
    match reply with
    | Some r =>
        addMessage (Js.or_else r (warning_sign ++ Js.lit " No reply")) Bot s
    | None => addMessage (warning_sign ++ Js.lit " Server error") Bot s
    end in
  discardRecording s.

(** The result events of a session, delivered in order. *)
Definition deliver (events : list result_event) (s : store) : store :=
  fold_left (fun s ev => onresult ev s) events s.

End LiveSimple.

(** ** The specification's own words *)

Module Spec.

(** [clamp(x, lo, hi)] *)
Definition clamp (x lo hi : Q) : Q :=
  if Qle_bool lo x then (if Qle_bool x hi then x else hi) else lo.

(** Section 4.2: [clamp(x, -1, 1) * 32767], truncated toward zero. *)
Definition saturate_round (x : Q) : Z :=
  Num.truncate (clamp x (-1) 1 * 32767).

(** Section 4.5: the last entry not yet final observed during a pass
    over [entries], if there is one. *)
Definition last_not_final (entries : list Page.result) : option jsstring :=
  last (map Page.transcript
          (filter (fun r => Page.isFinal r = false) entries)).

(** Section 4.5: the text of the entries marked final, each followed by
    a separating space. *)
Definition finals (entries : list Page.result) : jsstring :=
  concat (map (fun r => Page.transcript r ++ Js.lit " ")
            (filter (fun r => Page.isFinal r = true) entries)).

End Spec.

(** * Properties *)

(** Division and remainder by constants are left to [lia]. *)
Ltac Zify.zify_post_hook ::= Z.to_euclidean_division_equations.

(** ** Bytes *)

Lemma to_N_lt_256 (b : byte) : (Byte.to_N b < 256)%N.
Proof. pose proof (Byte.to_N_bounded b). lia. Qed.

Lemma byte_of_N_to_N (b : byte) : Base64.byte_of_N (Byte.to_N b) = b.
Proof.
  unfold Base64.byte_of_N.
  rewrite N.mod_small by apply to_N_lt_256.
  now rewrite Byte.of_to_N.
Qed.

Lemma u8_byte_val (b : byte) : Js.u8 (Js.byte_val b) = b.
Proof.
  unfold Js.u8, Js.byte_val.
  pose proof (to_N_lt_256 b).
  rewrite Z.mod_small by lia.
  now rewrite N2Z.id, Byte.of_to_N.
Qed.

Lemma byte_val_u8 (z : Z) : Js.byte_val (Js.u8 z) = z mod 256.
Proof.
  unfold Js.u8, Js.byte_val.
  pose proof (Z.mod_pos_bound z 256 eq_refl) as Hb.
  destruct (Byte.of_N (Z.to_N (z mod 256))) as [b|] eqn:E.
  - apply Byte.to_of_N in E. simpl. rewrite E. lia.
  - apply Byte.of_N_None_iff in E. lia.
Qed.

Lemma byte_val_range (b : byte) : 0 <= Js.byte_val b < 256.
Proof. unfold Js.byte_val. pose proof (to_N_lt_256 b). lia. Qed.

(** ** Base64 *)

Section Base64_facts.

Import Base64.

Lemma decode_encode_sextet (v : N) :
  (v < 64)%N -> decode_sextet (encode_sextet v) = Some v.
Proof.
  intros Hv. unfold encode_sextet.
  destruct (N.ltb_spec v 26); [|destruct (N.ltb_spec v 52);
    [|destruct (N.ltb_spec v 62); [|destruct (N.eqb_spec v 62)]]];
  unfold decode_sextet;
  repeat match goal with
  | |- context [(?a <=? ?b)%N] => destruct (N.leb_spec a b); try lia
  | |- context [(?a =? ?b)%N] => destruct (N.eqb_spec a b); try lia
  end; simpl; f_equal; lia.
Qed.

Lemma encode_sextet_not_pad (v : N) : (encode_sextet v =? pad)%N = false.
Proof.
  apply N.eqb_neq. unfold encode_sextet, pad.
  repeat match goal with
  | |- context [(?a <? ?b)%N] => destruct (N.ltb_spec a b)
  | |- context [(?a =? ?b)%N] => destruct (N.eqb_spec a b)
  end; lia.
Qed.

Lemma decode_full_encode (a b c : byte) :
  let x := Byte.to_N a in let y := Byte.to_N b in let z := Byte.to_N c in
  decode_full (encode_sextet (x / 4)) (encode_sextet (x mod 4 * 16 + y / 16))
    (encode_sextet (y mod 16 * 4 + z / 64)) (encode_sextet (z mod 64))
  = Some [a; b; c].
Proof.
  intros x y z.
  pose proof (to_N_lt_256 a). pose proof (to_N_lt_256 b).
  pose proof (to_N_lt_256 c).
  unfold decode_full.
  rewrite !decode_encode_sextet by (subst x y z; lia). simpl.
  replace (x / 4 * 4 + (x mod 4 * 16 + y / 16) / 16)%N with x by lia.
  replace ((x mod 4 * 16 + y / 16) mod 16 * 16 + (y mod 16 * 4 + z / 64) / 4)%N
    with y by lia.
  replace ((y mod 16 * 4 + z / 64) mod 4 * 64 + z mod 64)%N with z by lia.
  subst x y z. now rewrite !byte_of_N_to_N.
Qed.

Lemma decode_final_one (a : byte) :
  let x := Byte.to_N a in
  decode_final (encode_sextet (x / 4)) (encode_sextet (x mod 4 * 16)) pad pad
  = Some [a].
Proof.
  intros x. pose proof (to_N_lt_256 a).
  unfold decode_final. rewrite N.eqb_refl.
  rewrite !decode_encode_sextet by (subst x; lia). simpl.
  replace (x / 4 * 4 + x mod 4 * 16 / 16)%N with x by lia.
  subst x. now rewrite byte_of_N_to_N.
Qed.

Lemma decode_final_two (a b : byte) :
  let x := Byte.to_N a in let y := Byte.to_N b in
  decode_final (encode_sextet (x / 4)) (encode_sextet (x mod 4 * 16 + y / 16))
    (encode_sextet (y mod 16 * 4)) pad
  = Some [a; b].
Proof.
  intros x y. pose proof (to_N_lt_256 a). pose proof (to_N_lt_256 b).
  unfold decode_final. rewrite N.eqb_refl, encode_sextet_not_pad.
  rewrite !decode_encode_sextet by (subst x y; lia). simpl.
  replace (x / 4 * 4 + (x mod 4 * 16 + y / 16) / 16)%N with x by lia.
  replace ((x mod 4 * 16 + y / 16) mod 16 * 16 + y mod 16 * 4 / 4)%N
    with y by lia.
  subst x y. now rewrite !byte_of_N_to_N.
Qed.

Lemma decode_final_full (c1 c2 c3 v : N) :
  decode_final c1 c2 c3 (encode_sextet v)
  = decode_full c1 c2 c3 (encode_sextet v).
Proof. unfold decode_final. now rewrite encode_sextet_not_pad. Qed.

(** Induction on a list, three elements at a time. *)
Lemma list_ind3 {A} (P : list A -> Prop) :
  P [] -> (forall a, P [a]) -> (forall a b, P [a; b]) ->
  (forall a b c l, P l -> P (a :: b :: c :: l)) ->
  forall l, P l.
Proof.
  intros H0 H1 H2 H3 l.
  enough (P l /\ (forall a, P (a :: l)) /\ (forall a b, P (a :: b :: l)))
    by tauto.
  induction l as [|x l (IH0 & IH1 & IH2)]; auto.
Qed.

Lemma decode_encode_units (l : list byte) :
  decode (encode_units (Js.fromCharCode l)) = Some l.
Proof.
  induction l as [|a|a b|a b c l IH] using list_ind3.
  - reflexivity.
  - exact (decode_final_one a).
  - exact (decode_final_two a b).
  - change (Js.fromCharCode (a :: b :: c :: l))
      with (Byte.to_N a :: Byte.to_N b :: Byte.to_N c :: Js.fromCharCode l).
    cbn [encode_units decode].
    destruct (encode_units (Js.fromCharCode l)) as [|c1 cs] eqn:E.
    + rewrite decode_final_full, decode_full_encode.
      destruct l as [|? [|? [|? ?]]]; [reflexivity|discriminate..].
    + rewrite decode_full_encode. cbn [mbind option_bind].
      rewrite IH. reflexivity.
Qed.

Lemma btoa_fromCharCode (l : list byte) :
  btoa (Js.fromCharCode l) = Some (encode_units (Js.fromCharCode l)).
Proof.
  unfold btoa.
  replace (forallb (fun c => (c <=? 255)%N) (Js.fromCharCode l)) with true;
    [reflexivity|].
  symmetry. apply forallb_forall. intros c Hc.
  apply in_map_iff in Hc as (b & <- & _).
  apply N.leb_le, Byte.to_N_bounded.
Qed.

End Base64_facts.

(** ** Transport encoder *)

Lemma slice_then_rest {A} (l : list A) (i c : nat) :
  Js.subarray l i (i + c) ++ drop (i + c) l = drop i l.
Proof.
  unfold Js.subarray. rewrite <- take_drop_commute, <- drop_drop.
  apply take_drop.
Qed.

(** The loop ends within its fuel and has then appended the code units of
    the bytes from [index] on. *)
Lemma chunk_loop_spec (fuel chunk : nat) (u8Arr : list byte) :
  (0 < chunk)%nat ->
  forall (index : nat) (result : jsstring),
  (length u8Arr - index <= fuel)%nat ->
  Transport.chunk_loop fuel chunk u8Arr index result
  = Some (result ++ Js.fromCharCode (drop index u8Arr)).
Proof.
  intros Hc. induction fuel as [|fuel IH]; intros index result Hf.
  - simpl. destruct (Nat.ltb_spec index (length u8Arr)); [lia|].
    rewrite drop_ge by lia. now rewrite app_nil_r.
  - simpl. destruct (Nat.ltb_spec index (length u8Arr)).
    + rewrite IH by lia. rewrite <- app_assoc. do 2 f_equal.
      unfold Js.fromCharCode. rewrite <- map_app. f_equal.
      apply slice_then_rest.
    + rewrite drop_ge by lia. now rewrite app_nil_r.
Qed.

Lemma uint8ToBase64_with_spec (chunk : nat) (u8Arr : list byte) :
  (0 < chunk)%nat ->
  Transport.uint8ToBase64_with chunk u8Arr
  = Some (Base64.encode_units (Js.fromCharCode u8Arr)).
Proof.
  intros Hc. unfold Transport.uint8ToBase64_with.
  rewrite chunk_loop_spec by lia. simpl.
  apply btoa_fromCharCode.
Qed.

Lemma uint8ToBase64_spec (u8Arr : list byte) :
  Transport.uint8ToBase64 u8Arr
  = Some (Base64.encode_units (Js.fromCharCode u8Arr)).
Proof.
  apply uint8ToBase64_with_spec. unfold Transport.CHUNK_SIZE. lia.
Qed.

(** C4. For every byte buffer, [uint8ToBase64] returns the Base64 text of
    the whole buffer ([btoa] of its characters), the same text whatever
    positive slice size the loop uses, and standard Base64 decoding of
    that text gives the buffer back. *)
Theorem transport_encoder_roundtrip (u8Arr : list byte) :
  Transport.uint8ToBase64 u8Arr = Base64.btoa (Js.fromCharCode u8Arr)
  /\ (forall chunk : nat, (0 < chunk)%nat ->
      Transport.uint8ToBase64_with chunk u8Arr
      = Transport.uint8ToBase64 u8Arr)
  /\ exists text : jsstring,
       Transport.uint8ToBase64 u8Arr = Some text
       /\ Base64.decode text = Some u8Arr.
Proof.
  rewrite uint8ToBase64_spec, btoa_fromCharCode. split; [reflexivity|].
  split.
  - intros chunk Hc. now apply uint8ToBase64_with_spec.
  - eexists. split; [reflexivity|]. apply decode_encode_units.
Qed.

Lemma transport_encoder_roundtrip_witness :
  Transport.uint8ToBase64_with 2 [x4d; x61; x6e; x4d]
  = Transport.uint8ToBase64 [x4d; x61; x6e; x4d].
Proof.
  apply (transport_encoder_roundtrip [x4d; x61; x6e; x4d]). lia.
Defined.

(** ** WAV encoder *)

Section Wav_facts.

Import Wav.

Lemma total_length_concat {A} (chunks : list (list A)) :
  total_length chunks = length (concat chunks).
Proof.
  unfold total_length.
  enough (forall n, fold_left (fun a b => (a + length b)%nat) chunks n
                    = (n + length (concat chunks))%nat) as H by apply H.
  induction chunks as [|c cs IH]; intros n; simpl.
  - lia.
  - rewrite IH, length_app. lia.
Qed.

(** Writes at the cursor, when what has been written so far is [pre] and
    the rest of the buffer still holds its initial zeros. *)
Lemma setUint8_fresh (pre : list byte) (m : nat) (v : Z) :
  setUint8 (length pre) v (pre ++ replicate (S m) x00)
  = Some ((pre ++ [Js.u8 v]) ++ replicate m x00).
Proof.
  unfold setUint8. rewrite length_app, length_replicate.
  destruct (Nat.leb_spec (length pre + 1) (length pre + S m)); [|lia].
  f_equal. rewrite <- (Nat.add_0_r (length pre)) at 1.
  rewrite insert_app_r. simpl. now rewrite <- app_assoc.
Qed.

Lemma writeString_fresh (s : jsstring) (pre : list byte) (m : nat) :
  writeString s (Cursor (pre ++ replicate (length s + m) x00) (length pre))
  = Some (Cursor ((pre ++ map (fun ch => Js.u8 (Z.of_N ch)) s)
                  ++ replicate m x00)
            (length (pre ++ map (fun ch => Js.u8 (Z.of_N ch)) s))).
Proof.
  revert pre. induction s as [|ch s IH]; intros pre.
  - simpl. now rewrite app_nil_r.
  - cbn [writeString view offset length Nat.add map].
    rewrite setUint8_fresh. cbn [mbind option_bind].
    replace (length pre + 1)%nat with (length (pre ++ [Js.u8 (Z.of_N ch)]))
      by (rewrite length_app; simpl; lia).
    rewrite IH. now rewrite <- !app_assoc.
Qed.

Lemma setUint16_fresh (pre : list byte) (m : nat) (v : Z) :
  setUint16 (length pre) v (pre ++ replicate (2 + m) x00)
  = Some ((pre ++ le16 v) ++ replicate m x00).
Proof.
  unfold setUint16. rewrite length_app, length_replicate.
  destruct (Nat.leb_spec (length pre + 2) (length pre + (2 + m))); [|lia].
  f_equal. rewrite <- (Nat.add_0_r (length pre)) at 2.
  rewrite !insert_app_r. simpl. now rewrite <- app_assoc.
Qed.

Lemma setUint32_fresh (pre : list byte) (m : nat) (v : Z) :
  setUint32 (length pre) v (pre ++ replicate (4 + m) x00)
  = Some ((pre ++ le32 v) ++ replicate m x00).
Proof.
  unfold setUint32. rewrite length_app, length_replicate.
  destruct (Nat.leb_spec (length pre + 4) (length pre + (4 + m))); [|lia].
  f_equal. rewrite <- (Nat.add_0_r (length pre)) at 4.
  rewrite !insert_app_r. simpl. now rewrite <- app_assoc.
Qed.

Lemma put16_fresh (pre : list byte) (m : nat) (v : Z) :
  put16 v (Cursor (pre ++ replicate (2 + m) x00) (length pre))
  = Some (Cursor ((pre ++ le16 v) ++ replicate m x00)
            (length (pre ++ le16 v))).
Proof.
  unfold put16. cbn [view offset]. rewrite setUint16_fresh.
  cbn [mbind option_bind]. now rewrite length_app.
Qed.

Lemma put32_fresh (pre : list byte) (m : nat) (v : Z) :
  put32 v (Cursor (pre ++ replicate (4 + m) x00) (length pre))
  = Some (Cursor ((pre ++ le32 v) ++ replicate m x00)
            (length (pre ++ le32 v))).
Proof.
  unfold put32. cbn [view offset]. rewrite setUint32_fresh.
  cbn [mbind option_bind]. now rewrite length_app.
Qed.

Lemma putSamples_fresh (chunk : list Z) (pre : list byte) (m : nat) :
  putSamples chunk
    (Cursor (pre ++ replicate (length chunk * 2 + m) x00) (length pre))
  = Some (Cursor ((pre ++ concat (map le16 chunk)) ++ replicate m x00)
            (length (pre ++ concat (map le16 chunk)))).
Proof.
  revert pre. induction chunk as [|v chunk IH]; intros pre.
  - simpl. now rewrite app_nil_r.
  - cbn [putSamples view offset length]. unfold setInt16.
    replace (S (length chunk) * 2 + m)%nat
      with (2 + (length chunk * 2 + m))%nat by lia.
    rewrite setUint16_fresh. cbn [mbind option_bind].
    replace (length pre + 2)%nat with (length (pre ++ le16 v))
      by (rewrite length_app; reflexivity).
    rewrite IH. cbn [map concat]. now rewrite <- !app_assoc.
Qed.

Lemma putChunks_fresh (chunks : list (list Z)) (pre : list byte) (m : nat) :
  putChunks chunks
    (Cursor (pre ++ replicate (length (concat chunks) * 2 + m) x00)
       (length pre))
  = Some (Cursor ((pre ++ sample_bytes chunks) ++ replicate m x00)
            (length (pre ++ sample_bytes chunks))).
Proof.
  unfold sample_bytes.
  revert pre. induction chunks as [|chunk chunks IH]; intros pre.
  - simpl. now rewrite app_nil_r.
  - cbn [putChunks concat]. rewrite length_app.
    replace ((length chunk + length (concat chunks)) * 2 + m)%nat
      with (length chunk * 2 + (length (concat chunks) * 2 + m))%nat by lia.
    rewrite putSamples_fresh. cbn [mbind option_bind].
    rewrite IH. now rewrite map_app, concat_app, <- !app_assoc.
Qed.

(** The encoder never throws, and writes the container of section 3. *)
Lemma createWavBlob_layout (chunks : list (list Z)) (sampleRate : Z) :
  createWavBlob chunks sampleRate = Some (layout chunks sampleRate).
Proof.
  unfold createWavBlob, layout, header.
  rewrite total_length_concat.
  set (n := length (concat chunks)).
  change (Cursor (replicate (44 + n * 2) x00) 0)
    with (Cursor ([] ++ replicate (length (Js.lit "RIFF") + (40 + n * 2)) x00)
            (length (@nil byte))).
  rewrite writeString_fresh. cbn [mbind option_bind].
  change (40 + n * 2)%nat with (4 + (36 + n * 2))%nat.
  rewrite put32_fresh. cbn [mbind option_bind].
  change (36 + n * 2)%nat
    with (length (Js.lit "WAVEfmt ") + (28 + n * 2))%nat.
  rewrite writeString_fresh. cbn [mbind option_bind].
  change (28 + n * 2)%nat with (4 + (24 + n * 2))%nat.
  rewrite put32_fresh. cbn [mbind option_bind].
  change (24 + n * 2)%nat with (2 + (22 + n * 2))%nat.
  rewrite put16_fresh. cbn [mbind option_bind].
  change (22 + n * 2)%nat with (2 + (20 + n * 2))%nat.
  rewrite put16_fresh. cbn [mbind option_bind].
  change (20 + n * 2)%nat with (4 + (16 + n * 2))%nat.
  rewrite put32_fresh. cbn [mbind option_bind].
  change (16 + n * 2)%nat with (4 + (12 + n * 2))%nat.
  rewrite put32_fresh. cbn [mbind option_bind].
  change (12 + n * 2)%nat with (2 + (10 + n * 2))%nat.
  rewrite put16_fresh. cbn [mbind option_bind].
  change (10 + n * 2)%nat with (2 + (8 + n * 2))%nat.
  rewrite put16_fresh. cbn [mbind option_bind].
  change (8 + n * 2)%nat with (length (Js.lit "data") + (4 + n * 2))%nat.
  rewrite writeString_fresh. cbn [mbind option_bind].
  change (4 + n * 2)%nat with (4 + (n * 2))%nat.
  rewrite put32_fresh. cbn [mbind option_bind].
  replace (n * 2)%nat with (length (concat chunks) * 2 + 0)%nat
    by (subst n; lia).
  rewrite putChunks_fresh. cbn [mbind option_bind view].
  cbn [replicate]. rewrite app_nil_r.
  unfold ascii_bytes. rewrite <- !app_assoc. reflexivity.
Qed.

End Wav_facts.

Section Wav_fields.

Import Wav.

Lemma le16_value (v : Z) :
  0 <= v < 65536 ->
  Js.byte_val (Js.u8 v) + 256 * Js.byte_val (Js.u8 (v / 256)) = v.
Proof. intros Hv. rewrite !byte_val_u8. lia. Qed.

Lemma le32_value (v : Z) :
  0 <= v < 4294967296 ->
  Js.byte_val (Js.u8 v) + 256 * Js.byte_val (Js.u8 (v / 256))
  + 65536 * (Js.byte_val (Js.u8 (v / 65536))
             + 256 * Js.byte_val (Js.u8 (v / 16777216))) = v.
Proof. intros Hv. rewrite !byte_val_u8. lia. Qed.

(** A sample stored by [setInt16] reads back as itself when it is an
    element of an [Int16Array]. *)
Lemma le16_signed_value (v : Z) :
  -32768 <= v < 32768 ->
  (let u := Js.byte_val (Js.u8 v) + 256 * Js.byte_val (Js.u8 (v / 256)) in
   if u <? 32768 then u else u - 65536) = v.
Proof.
  intros Hv. cbv zeta. rewrite !byte_val_u8.
  destruct (Z.ltb_spec (v mod 256 + 256 * (v / 256 mod 256)) 32768); lia.
Qed.

Lemma decode_sample_bytes (samples : list Z) :
  Forall (fun v => -32768 <= v < 32768) samples ->
  decode_i16le (concat (map le16 samples)) = samples.
Proof.
  induction 1 as [|v samples Hv _ IH]; [reflexivity|].
  cbn [map concat le16 app decode_i16le].
  rewrite IH. f_equal. now apply le16_signed_value.
Qed.

Lemma length_sample_bytes (chunks : list (list Z)) :
  length (sample_bytes chunks) = (length (concat chunks) * 2)%nat.
Proof.
  unfold sample_bytes. induction (concat chunks) as [|v l IH];
    [reflexivity|].
  cbn [map concat le16 app length]. rewrite IH. lia.
Qed.

Lemma length_layout (chunks : list (list Z)) (sampleRate : Z) :
  length (layout chunks sampleRate)
  = (44 + length (concat chunks) * 2)%nat.
Proof.
  unfold layout. rewrite length_app, length_sample_bytes. reflexivity.
Qed.

End Wav_fields.

(** C3. [createWavBlob] is a function of its two arguments that always
    returns, and its result is the container of section 3: 44 header
    bytes followed by the samples, low byte first, in chunk order.  Read
    back as little-endian integers, the format tag is 1, the channel
    count 1, the block align 2, the bits per sample 16, and, whenever the
    value fits the 32 bits of its field, ChunkSize is 36 + dataBytes,
    Subchunk2Size is dataBytes, the sample rate and the byte rate are
    [sampleRate] and [sampleRate * 2].  With no samples at all the header
    is written just the same. *)
Theorem wav_encoder_layout (chunks : list (list Z)) (sampleRate : Z) :
  let dataBytes := Z.of_nat (length (concat chunks)) * 2 in
  exists wav : list byte,
    Wav.createWavBlob chunks sampleRate = Some wav
    /\ (forall wav', Wav.createWavBlob chunks sampleRate = Some wav' ->
        wav' = wav)
    /\ wav = Wav.layout chunks sampleRate
    /\ Z.of_nat (length wav) = 44 + dataBytes
    /\ take 4 wav = Wav.ascii_bytes "RIFF"
    /\ take 8 (drop 8 wav) = Wav.ascii_bytes "WAVEfmt "
    /\ Wav.read_u32le wav 16 = Some 16
    /\ Wav.read_u16le wav 20 = Some 1
    /\ Wav.read_u16le wav 22 = Some 1
    /\ Wav.read_u16le wav 32 = Some 2
    /\ Wav.read_u16le wav 34 = Some 16
    /\ take 4 (drop 36 wav) = Wav.ascii_bytes "data"
    /\ drop 44 wav = Wav.sample_bytes chunks
    /\ (36 + dataBytes < 4294967296 ->
        Wav.read_u32le wav 4 = Some (36 + dataBytes)
        /\ Wav.read_u32le wav 40 = Some dataBytes)
    /\ (0 <= sampleRate -> sampleRate * 2 < 4294967296 ->
        Wav.read_u32le wav 24 = Some sampleRate
        /\ Wav.read_u32le wav 28 = Some (sampleRate * 2))
    /\ (Forall (Forall (fun v => -32768 <= v < 32768)) chunks ->
        Wav.decode_i16le (drop 44 wav) = concat chunks)
    /\ (chunks = [] ->
        wav = Wav.header 0 sampleRate
        /\ Wav.read_u32le wav 4 = Some 36
        /\ Wav.read_u32le wav 40 = Some 0).
Proof.
  intros dataBytes. exists (Wav.layout chunks sampleRate).
  rewrite createWavBlob_layout.
  split; [reflexivity|]. split; [congruence|]. split; [reflexivity|].
  split; [rewrite length_layout; subst dataBytes; lia|].
  do 8 (split; [reflexivity|]).
  split; [reflexivity|].
  split.
  { intros Hd.
    assert (0 <= dataBytes) by (subst dataBytes; lia).
    split.
    - change (Wav.read_u32le (Wav.layout chunks sampleRate) 4)
        with (Some (let v := 36 + dataBytes in
                    Js.byte_val (Js.u8 v) + 256 * Js.byte_val (Js.u8 (v / 256))
                    + 65536 * (Js.byte_val (Js.u8 (v / 65536))
                       + 256 * Js.byte_val (Js.u8 (v / 16777216))))).
      cbv zeta. rewrite le32_value by lia. reflexivity.
    - change (Wav.read_u32le (Wav.layout chunks sampleRate) 40)
        with (Some (let v := dataBytes in
                    Js.byte_val (Js.u8 v) + 256 * Js.byte_val (Js.u8 (v / 256))
                    + 65536 * (Js.byte_val (Js.u8 (v / 65536))
                       + 256 * Js.byte_val (Js.u8 (v / 16777216))))).
      cbv zeta. rewrite le32_value by lia. reflexivity. }
  split.
  { intros H0 H1. split.
    - change (Wav.read_u32le (Wav.layout chunks sampleRate) 24)
        with (Some (let v := sampleRate in
                    Js.byte_val (Js.u8 v) + 256 * Js.byte_val (Js.u8 (v / 256))
                    + 65536 * (Js.byte_val (Js.u8 (v / 65536))
                       + 256 * Js.byte_val (Js.u8 (v / 16777216))))).
      cbv zeta. rewrite le32_value by lia. reflexivity.
    - change (Wav.read_u32le (Wav.layout chunks sampleRate) 28)
        with (Some (let v := sampleRate * 2 in
                    Js.byte_val (Js.u8 v) + 256 * Js.byte_val (Js.u8 (v / 256))
                    + 65536 * (Js.byte_val (Js.u8 (v / 65536))
                       + 256 * Js.byte_val (Js.u8 (v / 16777216))))).
      cbv zeta. rewrite le32_value by lia. reflexivity. }
  split.
  { intros Hs. change (drop 44 (Wav.layout chunks sampleRate))
      with (Wav.sample_bytes chunks).
    apply decode_sample_bytes. unfold Wav.sample_bytes.
    induction Hs as [|c cs Hc _ IH]; simpl; [constructor|].
    apply Forall_app; auto. }
  intros ->. repeat split.
Qed.

Lemma wav_encoder_layout_witness :
  exists wav : list byte,
    Wav.createWavBlob [[1; -2]; [258]] 16000 = Some wav
    /\ Wav.read_u32le wav 4 = Some 42
    /\ Wav.read_u32le wav 40 = Some 6
    /\ Wav.read_u32le wav 24 = Some 16000
    /\ Wav.read_u32le wav 28 = Some 32000
    /\ Wav.decode_i16le (drop 44 wav) = [1; -2; 258].
Proof.
  destruct (wav_encoder_layout [[1; -2]; [258]] 16000)
    as (wav & Hw & _ & _ & _ & _ & _ & _ & _ & _ & _ & _ & _ & _
        & Hsize & Hrate & Hdec & _).
  exists wav. split; [exact Hw|].
  destruct Hsize as [H4 H40]; [simpl; lia|].
  destruct Hrate as [H24 H28]; [lia|lia|].
  repeat split; try assumption.
  apply Hdec. repeat constructor; lia.
Defined.

(** ** Sample conversion *)

Section Conversion.

Import Num.

Lemma truncate_Qeq (p q : Q) : p == q -> truncate p = truncate q.
Proof.
  unfold Qeq, truncate. intros H.
  rewrite <- (Z.quot_mul_cancel_r (Qnum p) (Zpos (Qden p)) (Zpos (Qden q)))
    by discriminate.
  rewrite H, (Z.mul_comm (Zpos (Qden p))).
  now rewrite Z.quot_mul_cancel_r by discriminate.
Qed.

Lemma truncate_scaled_bounds (c : Q) :
  (-1 <= c <= 1)%Q -> -32767 <= truncate (c * 32767) <= 32767.
Proof.
  unfold Qle, truncate. cbn [Qnum Qden Qmult].
  rewrite Pos.mul_1_r. intros [Hlo Hhi].
  set (d := Zpos (Qden c)) in *. assert (0 < d) by (subst d; lia).
  split.
  - rewrite <- (Z.quot_mul (-32767) d) by lia.
    apply Z.quot_le_mono; lia.
  - rewrite <- (Z.quot_mul 32767 d) at 2 by lia.
    apply Z.quot_le_mono; lia.
Qed.

Lemma ToInt16_small (q : Q) :
  -32768 <= truncate q < 32768 -> ToInt16 (Fin q) = truncate q.
Proof.
  intros H. unfold ToInt16.
  destruct (Z.leb_spec 32768 (truncate q mod 65536)); lia.
Qed.

Lemma ToInt16_range (a : number) : -32768 <= ToInt16 a < 32768.
Proof.
  destruct a as [q| | |]; cbn [ToInt16]; try lia.
  destruct (Z.leb_spec 32768 (truncate q mod 65536)); lia.
Qed.

(** The clamp the loop computes with [Math.min] and [Math.max]. *)
Lemma min_max_clamp (q : Q) :
  exists c : Q,
    max (of_Z (-1)) (min (of_Z 1) (Fin q)) = Fin c
    /\ c == Spec.clamp q (-1) 1 /\ (-1 <= c <= 1)%Q.
Proof.
  unfold of_Z, min, max, Spec.clamp.
  change (inject_Z 1) with 1%Q. change (inject_Z (-1)) with (-1)%Q.
  destruct (Qle_bool 1 q) eqn:E1.
  - change (Qle_bool (-1) 1) with true. cbv iota.
    exists 1%Q. apply Qle_bool_iff in E1.
    assert (Qle_bool (-1) q = true) as ->
      by (apply Qle_bool_iff; eapply Qle_trans; [|exact E1]; discriminate).
    split; [reflexivity|]. split; [|split; discriminate].
    destruct (Qle_bool q 1) eqn:E2; [|reflexivity].
    apply Qle_bool_iff in E2. now apply Qle_antisym.
  - assert (q <= 1)%Q as Hq1.
    { apply Qnot_lt_le. intros Hlt. apply Qlt_le_weak in Hlt.
      apply Qle_bool_iff in Hlt. congruence. }
    assert (Qle_bool q 1 = true) as -> by now apply Qle_bool_iff.
    destruct (Qle_bool (-1) q) eqn:E2.
    + exists q. apply Qle_bool_iff in E2.
      split; [reflexivity|]. split; [reflexivity|]. now split.
    + exists (-1)%Q.
      split; [reflexivity|]. split; [reflexivity|]. split; discriminate.
Qed.

(** On every finite sample the loop stores the value of section 4.2, and
    that value lies within [-32767, 32767]. *)
Lemma to_pcm16_saturate_round (q : Q) :
  Pcm.to_pcm16 (Fin q) = Spec.saturate_round q
  /\ -32767 <= Pcm.to_pcm16 (Fin q) <= 32767.
Proof.
  unfold Pcm.to_pcm16, Spec.saturate_round.
  destruct (min_max_clamp q) as (c & -> & Hc & Hr).
  change (mul (Fin c) (of_Z 32767)) with (Fin (c * 32767)).
  pose proof (truncate_scaled_bounds c Hr).
  rewrite ToInt16_small by lia. split; [|lia].
  apply truncate_Qeq. now rewrite Hc.
Qed.

Lemma to_pcm16_range (x : number) : -32768 <= Pcm.to_pcm16 x < 32768.
Proof. apply ToInt16_range. Qed.

End Conversion.

(** ** The frame buffer: append and merge *)

Section Frame_buffer.

Import Pcm.

Lemma set_at_fresh (done chunk rest : list byte) :
  (length chunk <= length rest)%nat ->
  set_at chunk (length done) (done ++ rest)
  = Some ((done ++ chunk) ++ drop (length chunk) rest).
Proof.
  intros Hl. unfold set_at. rewrite length_app.
  destruct (Nat.leb_spec (length done + length chunk)
              (length done + length rest)); [|lia].
  rewrite take_app_length, drop_app_add'; [|reflexivity].
  now rewrite <- app_assoc.
Qed.

Lemma merge_loop_spec (chunks : list (list byte)) :
  forall done rest : list byte,
  (length (concat chunks) <= length rest)%nat ->
  merge_loop chunks (done ++ rest) (length done)
  = Some ((done ++ concat chunks) ++ drop (length (concat chunks)) rest).
Proof.
  induction chunks as [|chunk chunks IH]; intros done rest Hl.
  - simpl. now rewrite app_nil_r, drop_0.
  - cbn [merge_loop concat] in *. rewrite length_app in Hl.
    rewrite set_at_fresh by lia. cbn [mbind option_bind].
    replace (length done + length chunk)%nat with (length (done ++ chunk))
      by now rewrite length_app.
    rewrite IH by (rewrite length_drop; lia).
    rewrite drop_drop, length_app, <- !app_assoc. reflexivity.
Qed.

(** The merge never throws and is the concatenation of the chunks. *)
Lemma merge_concat (chunks : list (list byte)) :
  merge chunks = Some (concat chunks).
Proof.
  unfold merge. rewrite total_length_concat.
  change (replicate (length (concat chunks)) x00)
    with ([] ++ replicate (length (concat chunks)) x00).
  change 0%nat with (length (@nil byte)).
  rewrite merge_loop_spec by now rewrite length_replicate.
  rewrite drop_ge by now rewrite length_replicate.
  now rewrite app_nil_r.
Qed.

Lemma record_frames_chunks (frames : list (list number)) (s : store) :
  pcmChunks (record_frames frames s)
  = pcmChunks s ++ map (fun d => buffer_bytes (map to_pcm16 d)) frames
  /\ wavChunks (record_frames frames s)
     = wavChunks s ++ map (map to_pcm16) frames.
Proof.
  unfold record_frames. revert s.
  induction frames as [|d frames IH]; intros s; simpl.
  - now rewrite !app_nil_r.
  - destruct (IH (onaudioprocess d s)) as [-> ->]. simpl.
    now rewrite <- !app_assoc.
Qed.

Lemma buffer_bytes_sample_bytes (chunks : list (list Z)) :
  concat (map buffer_bytes chunks) = Wav.sample_bytes chunks.
Proof.
  unfold Wav.sample_bytes, buffer_bytes.
  induction chunks as [|c cs IH]; [reflexivity|].
  cbn [map concat]. rewrite IH, map_app, concat_app. reflexivity.
Qed.

End Frame_buffer.

(** C2. Starting from an empty buffer, let the recorder receive frames
    of finite samples (those in [-1, 1] among them).  Every sample is
    stored as the 16-bit integer [clamp(x, -1, 1) * 32767] truncated
    toward zero; the merge of [sendVoice] returns a byte sequence of
    exactly two bytes per sample; and decoding these bytes as
    little-endian signed 16-bit integers gives those values back, in
    arrival order. *)
Theorem append_merge_roundtrip (frames : list (list Q)) (s : Pcm.store) :
  Pcm.pcmChunks s = [] ->
  let s' := Pcm.record_frames (map (map Num.Fin) frames) s in
  Pcm.wavChunks s'
  = Pcm.wavChunks s ++ map (map Spec.saturate_round) frames
  /\ Forall (fun v => -32767 <= v <= 32767)
       (map Spec.saturate_round (concat frames))
  /\ exists merged : list byte,
       Pcm.merge (Pcm.pcmChunks s') = Some merged
       /\ length merged = (2 * length (concat frames))%nat
       /\ Wav.decode_i16le merged
          = map Spec.saturate_round (concat frames).
Proof.
  intros Hempty s'.
  destruct (record_frames_chunks (map (map Num.Fin) frames) s)
    as [Hp Hw].
  fold s' in Hp, Hw. rewrite Hempty in Hp. cbn [app] in Hp.
  assert (Hconv : forall l : list Q,
             map Pcm.to_pcm16 (map Num.Fin l) = map Spec.saturate_round l).
  { intros l. rewrite map_map. apply map_ext. intros q.
    apply to_pcm16_saturate_round. }
  assert (Hrange : Forall (fun v => -32767 <= v <= 32767)
                     (map Spec.saturate_round (concat frames))).
  { apply List.Forall_map, List.Forall_forall. intros q _.
    destruct (to_pcm16_saturate_round q) as [<- ?]. assumption. }
  split.
  { rewrite Hw. f_equal. rewrite map_map. apply map_ext, Hconv. }
  split; [exact Hrange|].
  exists (concat (Pcm.pcmChunks s')). split; [apply merge_concat|].
  rewrite Hp, map_map.
  rewrite <- (map_map (fun d => map Pcm.to_pcm16 (map Num.Fin d))
                Pcm.buffer_bytes).
  rewrite buffer_bytes_sample_bytes.
  rewrite (map_ext _ _ Hconv).
  split.
  - rewrite length_sample_bytes, <- concat_map.
    rewrite length_map. lia.
  - unfold Wav.sample_bytes. rewrite <- concat_map.
    apply decode_sample_bytes.
    eapply Forall_impl; [exact Hrange|]. simpl. intros; lia.
Qed.

Lemma append_merge_roundtrip_witness :
  exists merged : list byte,
    Pcm.merge
      (Pcm.pcmChunks
         (Pcm.record_frames
            (map (map Num.Fin) [[1 # 2; -1 # 1]%Q; [-1 # 3]%Q])
            Pcm.initial))
    = Some merged
    /\ length merged = 6%nat
    /\ Wav.decode_i16le merged = [16383; -32767; -10922].
Proof.
  destruct (append_merge_roundtrip [[1 # 2; -1 # 1]%Q; [-1 # 3]%Q]
              Pcm.initial eq_refl) as (_ & _ & merged & Hm & Hl & Hd).
  exists merged. split; [exact Hm|]. split; [exact Hl|exact Hd].
Defined.

(** ** Transport and preview *)

(** Reads of a field through the setters of the store. *)
Ltac pcm_fields :=
  cbn [Pcm.selectedMode Pcm.chat Pcm.micStream Pcm.audioContext Pcm.input
    Pcm.processor Pcm.pcmChunks Pcm.wavChunks Pcm.timer Pcm.seconds
    Pcm.recordingBar Pcm.voicePreview Pcm.recordingTime Pcm.audioPlayback
    Pcm.streams Pcm.contexts Pcm.graphs Pcm.timers Pcm.requests
    Pcm.set_selectedMode Pcm.set_chat Pcm.set_micStream Pcm.set_audioContext
    Pcm.set_input Pcm.set_processor Pcm.set_pcmChunks Pcm.set_wavChunks
    Pcm.set_timer Pcm.set_seconds Pcm.set_recordingBar Pcm.set_voicePreview
    Pcm.set_recordingTime Pcm.set_audioPlayback Pcm.set_streams
    Pcm.set_contexts Pcm.set_graphs Pcm.set_timers Pcm.set_requests
    Pcm.addMessage Pcm.clearInterval Pcm.after Pcm.discardRecording
    Pcm.onaudioprocess Pcm.ontick] in *.

Section Lockstep.

Import Pcm.

Lemma lockstep_step (e : event) (s s' : store) :
  lockstep s -> step e s = Some s' -> lockstep s'.
Proof.
  unfold lockstep. intros Hs He.
  destruct e; cbn [step] in He.
  - injection He as <-. unfold handleSelection.
    destruct (bool_decide _); exact Hs.
  - injection He as <-. unfold startRecording.
    destruct (bool_decide _); exact Hs.
  - injection He as <-. unfold startRecording_resume.
    destruct (microphone b); [|exact Hs].
    destruct (audio_context b); [reflexivity|exact Hs].
  - injection He as <-. unfold stopRecording.
    destruct (timer s); pcm_fields;
      (destruct (processor s); [|exact Hs]); pcm_fields;
      (destruct (input s); [|exact Hs]); pcm_fields;
      (destruct (micStream s); [|exact Hs]); pcm_fields;
      (destruct (Wav.createWavBlob (wavChunks s) 16000); exact Hs).
  - injection He as <-. reflexivity.
  - injection He as <-. unfold sendVoice.
    destruct (pcmChunks s) eqn:E; [pcm_fields; rewrite E; exact Hs|].
    pcm_fields.
    destruct (merge _ ≫= Transport.uint8ToBase64);
      pcm_fields; rewrite E; exact Hs.
  - injection He as <-. reflexivity.
  - unfold audio_event in He.
    destruct (graphs s !! node) as [[|]|]; try discriminate.
    injection He as <-. pcm_fields. rewrite Hs, map_app. reflexivity.
  - unfold timer_event in He.
    destruct (timers s !! i) as [[|]|]; try discriminate.
    injection He as <-. exact Hs.
Qed.

Lemma lockstep_reachable (s : store) : reachable s -> lockstep s.
Proof.
  intros [es Hes].
  assert (Hinit : lockstep initial) by reflexivity.
  revert Hes Hinit. generalize initial. 
  induction es as [|e es IH]; intros s0 Hes H0; cbn [run] in Hes.
  - now injection Hes as <-.
  - destruct (step e s0) as [s1|] eqn:E; [|discriminate].
    eapply IH; [exact Hes|]. eapply lockstep_step; eauto.
Qed.

End Lockstep.

(** The claim C10 fails when a frame arrives between stop and send.
    After a second start the first processor is still connected;
    [stopRecording] builds the preview and disconnects the second one
    only; a frame the first one then delivers is in the upload that
    [sendVoice] builds, and not in the preview. *)
Lemma late_frame_in_upload_not_in_preview :
  let ok := Pcm.Backend true true in
  let es := [Pcm.Select (Js.lit "ask"); Pcm.StartCall; Pcm.StartResume ok;
             Pcm.StartCall; Pcm.StartResume ok;
             Pcm.Audio 1 [Num.Fin (1 # 2)]] in
  exists (s s1 s2 s3 : Pcm.store) (wav : list byte) (req : Pcm.request),
    Pcm.run es Pcm.initial = Some s
    /\ Pcm.stopRecording s = Pcm.Returned s1
    /\ Pcm.audioPlayback s1 = Some wav
    /\ drop 44 wav = [xff; x3f]
    /\ Pcm.audio_event 0 [Num.Fin (1 # 4)] s1 = Some s2
    /\ Pcm.audioPlayback s2 = Some wav
    /\ Pcm.sendVoice s2 = Pcm.AwaitingResponse s3
    /\ Pcm.requests s3 = [req]
    /\ Base64.decode (Pcm.audio req) = Some [xff; x3f; xff; x1f]
    /\ Base64.decode (Pcm.audio req) <> Some (drop 44 wav).
Proof.
  cbv zeta.
  eexists _, _, _, _, _, _.
  split; [vm_compute; reflexivity|].
  split; [vm_compute; reflexivity|].
  split; [vm_compute; reflexivity|].
  split; [vm_compute; reflexivity|].
  split; [vm_compute; reflexivity|].
  split; [vm_compute; reflexivity|].
  split; [vm_compute; reflexivity|].
  split; [vm_compute; reflexivity|].
  split; [vm_compute; reflexivity|].
  vm_compute. discriminate.
Qed.

(** C10, amended. Every captured chunk is stored at once as a byte view
    and as an [Int16Array] of the same converted samples, so in every
    state the recorder can reach the merged bytes are the data section
    (from byte 44 on) of the container built from the sample chunks.
    [stopRecording] builds the preview; [sendVoice] builds the request
    when it is called.  If the byte buffer is then still as
    [stopRecording] left it, that is, if no frame has arrived in between,
    the [audio] text of the one request added, Base64-decoded, is
    exactly the preview container from byte 44 on, and its [sampleRate]
    is 16000; if nothing was recorded, no request is made and the preview
    has no data section.  The merge and the encoder never throw. *)
Theorem transport_matches_preview (s s1 s2 : Pcm.store) :
  Pcm.reachable s ->
  Pcm.stopRecording s = Pcm.Returned s1 ->
  Pcm.pcmChunks s2 = Pcm.pcmChunks s1 ->
  exists wav : list byte,
    Pcm.audioPlayback s1 = Some wav
    /\ Wav.createWavBlob (Pcm.wavChunks s) 16000 = Some wav
    /\ Pcm.merge (Pcm.pcmChunks s) = Some (drop 44 wav)
    /\ match Pcm.sendVoice s2 with
       | Pcm.AwaitingResponse s3 =>
           exists req : Pcm.request,
             Pcm.requests s3 = Pcm.requests s2 ++ [req]
             /\ Base64.decode (Pcm.audio req) = Some (drop 44 wav)
             /\ Pcm.sampleRate req = 16000
       | Pcm.NothingToSend s3 =>
           Pcm.requests s3 = Pcm.requests s2 /\ drop 44 wav = []
       | Pcm.SendThrew _ => False
       end.
Proof.
  intros Hr Hstop Hsame. apply lockstep_reachable in Hr.
  unfold Pcm.lockstep in Hr.
  assert (Hkeep : Pcm.pcmChunks s1 = Pcm.pcmChunks s
                  /\ Pcm.audioPlayback s1
                     = Some (Wav.layout (Pcm.wavChunks s) 16000)).
  { unfold Pcm.stopRecording in Hstop.
    destruct (Pcm.timer s); pcm_fields;
      (destruct (Pcm.processor s); [|discriminate]); pcm_fields;
      (destruct (Pcm.input s); [|discriminate]); pcm_fields;
      (destruct (Pcm.micStream s); [|discriminate]); pcm_fields;
      rewrite createWavBlob_layout in Hstop;
      injection Hstop as <-; split; reflexivity. }
  destruct Hkeep as [Hp Ha]. clear Hstop. rewrite Hp in Hsame.
  eexists. split; [exact Ha|].
  split; [apply createWavBlob_layout|].
  change (drop 44 (Wav.layout (Pcm.wavChunks s) 16000))
    with (Wav.sample_bytes (Pcm.wavChunks s)).
  split.
  { rewrite merge_concat, Hr, buffer_bytes_sample_bytes. reflexivity. }
  unfold Pcm.sendVoice. rewrite Hsame.
  destruct (Pcm.pcmChunks s) as [|c cs] eqn:E.
  - split; [reflexivity|].
    destruct (Pcm.wavChunks s); [reflexivity|discriminate].
  - pcm_fields. rewrite Hsame, merge_concat. cbn [mbind option_bind].
    rewrite uint8ToBase64_spec.
    eexists. split; [reflexivity|]. cbn [Pcm.audio Pcm.sampleRate].
    rewrite decode_encode_units, <- buffer_bytes_sample_bytes, <- Hr.
    split; reflexivity.
Qed.

Lemma transport_matches_preview_witness :
  let s :=
    default Pcm.initial
      (Pcm.run [Pcm.Select (Js.lit "ask"); Pcm.StartCall;
                Pcm.StartResume (Pcm.Backend true true);
                Pcm.Audio 0 [Num.Fin (1 # 2); Num.Fin (-1 # 1)]]
         Pcm.initial) in
  let s1 := Pcm.after (Pcm.stopRecording s) in
  let s2 := Pcm.handleSelection (Js.lit "ask") s1 in
  exists wav : list byte,
    Pcm.audioPlayback s1 = Some wav
    /\ Wav.createWavBlob (Pcm.wavChunks s) 16000 = Some wav
    /\ Pcm.merge (Pcm.pcmChunks s) = Some (drop 44 wav)
    /\ match Pcm.sendVoice s2 with
       | Pcm.AwaitingResponse s3 =>
           exists req : Pcm.request,
             Pcm.requests s3 = Pcm.requests s2 ++ [req]
             /\ Base64.decode (Pcm.audio req) = Some (drop 44 wav)
             /\ Pcm.sampleRate req = 16000
       | Pcm.NothingToSend s3 =>
           Pcm.requests s3 = Pcm.requests s2 /\ drop 44 wav = []
       | Pcm.SendThrew _ => False
       end.
Proof.
  intros s s1 s2. apply (transport_matches_preview s s1 s2).
  - exists [Pcm.Select (Js.lit "ask"); Pcm.StartCall;
            Pcm.StartResume (Pcm.Backend true true);
            Pcm.Audio 0 [Num.Fin (1 # 2); Num.Fin (-1 # 1)]].
    subst s. vm_compute. reflexivity.
  - subst s1 s. vm_compute. reflexivity.
  - subst s2 s1 s. vm_compute. reflexivity.
Defined.

(** ** Sending *)



(** C7. With nothing recorded, [sendVoice] only shows a message: in the
    PCM recorder, when there is no chunk, "No audio recorded."; in the
    live variant, when the input field holds nothing but white space,
    "No speech detected.".  No request is issued and nothing else in the
    store changes. *)
Theorem send_empty_refused :
  (forall s : Pcm.store,
      Pcm.pcmChunks s = [] ->
      Pcm.sendVoice s
      = Pcm.NothingToSend
          (Pcm.set_chat
             (Pcm.chat s
              ++ [Page.Message Page.Bot
                    (Page.warning_sign ++ Js.lit " No audio recorded.")]) s))
  /\ (forall (s : LiveToken.store) (value : jsstring)
        (body : list Page.message),
      LiveToken.userInput s = Some value ->
      Js.trim value = [] ->
      LiveToken.chatBody s = Some body ->
      LiveToken.sendVoice s
      = LiveToken.NothingToSend
          (LiveToken.set_chatBody
             (Some (body
                    ++ [Page.Message Page.Bot
                          (Page.warning_sign
                           ++ Js.lit " No speech detected.")])) s)).
Proof.
  split.
  - intros s Hs. unfold Pcm.sendVoice. now rewrite Hs.
  - intros s value body Hv Ht Hb. unfold LiveToken.sendVoice.
    rewrite Hv, Ht. cbn [Js.truthy negb].
    unfold LiveToken.addMessage. now rewrite Hb.
Qed.

Lemma send_empty_refused_witness :
  Pcm.requests
    (match Pcm.sendVoice Pcm.initial with
     | Pcm.NothingToSend s | Pcm.SendThrew s | Pcm.AwaitingResponse s => s
     end) = []
  /\ LiveToken.sendVoice
       (LiveToken.set_userInput (Some (Js.lit "  ")) (LiveToken.initial true))
     = LiveToken.NothingToSend
         (LiveToken.set_chatBody
            (Some ([] ++ [Page.Message Page.Bot
                            (Page.warning_sign
                             ++ Js.lit " No speech detected.")]))
            (LiveToken.set_userInput (Some (Js.lit "  "))
               (LiveToken.initial true))).
Proof.
  destruct send_empty_refused as [Hpcm Hlive]. split.
  - now rewrite (Hpcm Pcm.initial eq_refl).
  - apply (Hlive _ (Js.lit "  ") []); reflexivity.
Defined.

(** ** Starting a session *)

Ltac live_fields :=
  cbn [LiveToken.selectedMode LiveToken.SpeechRecognition LiveToken.recognizer
    LiveToken.isRecording LiveToken.speechSessionId LiveToken.chatBody
    LiveToken.userInput LiveToken.recordingBar LiveToken.voicePreview
    LiveToken.recordingTime LiveToken.recognizers LiveToken.timers
    LiveToken.requests LiveToken.set_selectedMode
    LiveToken.set_SpeechRecognition LiveToken.set_recognizer
    LiveToken.set_isRecording LiveToken.set_speechSessionId
    LiveToken.set_chatBody LiveToken.set_userInput
    LiveToken.set_recordingBar LiveToken.set_voicePreview
    LiveToken.set_recordingTime LiveToken.set_recognizers
    LiveToken.set_timers LiveToken.set_requests LiveToken.addMessage
    LiveToken.clearInputHard LiveToken.r_session LiveToken.r_state
    LiveToken.t_session LiveToken.t_seconds LiveToken.t_active] in *.

Ltac simple_fields :=
  cbn [LiveSimple.selectedMode LiveSimple.SpeechRecognition
    LiveSimple.liveRecognizer LiveSimple.liveTranscript
    LiveSimple.isRecording LiveSimple.chatBody LiveSimple.userInput
    LiveSimple.recordingBar LiveSimple.voicePreview LiveSimple.recordingTime
    LiveSimple.recognizers LiveSimple.timers LiveSimple.requests
    LiveSimple.set_selectedMode LiveSimple.set_SpeechRecognition
    LiveSimple.set_liveRecognizer LiveSimple.set_liveTranscript
    LiveSimple.set_isRecording LiveSimple.set_chatBody
    LiveSimple.set_userInput LiveSimple.set_recordingBar
    LiveSimple.set_voicePreview LiveSimple.set_recordingTime
    LiveSimple.set_recognizers LiveSimple.set_timers LiveSimple.set_requests
    LiveSimple.addMessage] in *.

Section Live_start.

Import LiveToken.

Lemma alter_last {A} (f : A -> A) (l : list A) (x : A) :
  alter f (length l) (l ++ [x]) = l ++ [f x].
Proof.
  rewrite <- (Nat.add_0_r (length l)) at 1. now rewrite alter_app_r.
Qed.

Lemma store_ext (a b : store) :
  selectedMode a = selectedMode b ->
  SpeechRecognition a = SpeechRecognition b ->
  recognizer a = recognizer b ->
  isRecording a = isRecording b ->
  speechSessionId a = speechSessionId b ->
  chatBody a = chatBody b ->
  userInput a = userInput b ->
  recordingBar a = recordingBar b ->
  voicePreview a = voicePreview b ->
  recordingTime a = recordingTime b ->
  recognizers a = recognizers b ->
  timers a = timers b ->
  requests a = requests b ->
  a = b.
Proof. destruct a, b. cbn. intros. subst. reflexivity. Qed.

Lemma length_torn_down (s : store) :
  length (torn_down s) = length (recognizers s).
Proof. unfold torn_down. destruct (recognizer s); [apply length_alter|reflexivity]. Qed.

Lemma resetSpeechState_fields (s : store) :
  resetSpeechState s
  = Store (selectedMode s) (SpeechRecognition s) None false
      (speechSessionId s + 1)%N (chatBody s) (assign [] (userInput s))
      (assign DisplayNone (recordingBar s))
      (assign DisplayNone (voicePreview s)) (recordingTime s)
      (torn_down s) (timers s) (requests s).
Proof.
  unfold resetSpeechState, torn_down.
  apply store_ext; live_fields; destruct (recognizer s) eqn:E; live_fields;
    rewrite ?E; reflexivity.
Qed.

(** What a start that passes its checks leaves behind. *)
Lemma startRecording_success (s : store) :
  isRecording s = false ->
  selectedMode s = Some (Js.lit "ask") ->
  SpeechRecognition s = true ->
  startRecording s
  = Store (selectedMode s) true (Some (length (recognizers s))) true
      (speechSessionId s + 1)%N (chatBody s) (assign [] (userInput s))
      (assign DisplayBlock (recordingBar s))
      (assign DisplayNone (voicePreview s))
      (assign 0%N (recordingTime s))
      (torn_down s ++ [RecognizerObject (speechSessionId s + 1)%N Started])
      (timers s ++ [Interval (speechSessionId s + 1)%N 0 true])
      (requests s).
Proof.
  intros Hrec Hmode Hsup. unfold startRecording.
  rewrite Hrec.
  rewrite bool_decide_eq_false_2 by (intros H; now apply H).
  rewrite Hsup at 1. cbn [negb]. rewrite resetSpeechState_fields.
  apply store_ext; live_fields;
    rewrite ?alter_last, ?length_torn_down; auto.
  unfold assign. destruct (recordingBar s); reflexivity.
Qed.

End Live_start.

(** The claim C8 fails in the PCM recorder when the microphone is granted
    but no audio context can be made: [startRecording] fails, yet it has
    already stored the stream, which stays live. *)
Lemma start_failure_changes_state :
  let s := Pcm.handleSelection (Js.lit "ask") Pcm.initial in
  let b := Pcm.Backend true false in
  Pcm.startRecording s = Pcm.AwaitingMicrophone s
  /\ exists s' : Pcm.store,
       Pcm.startRecording_resume b s = Pcm.Threw s'
       /\ Pcm.micStream s = None /\ Pcm.micStream s' = Some 0%nat
       /\ Pcm.streams s = [] /\ Pcm.streams s' = [true]
       /\ s' <> s.
Proof.
  vm_compute. split; [reflexivity|].
  eexists. split; [reflexivity|]. repeat split. discriminate.
Qed.

(** C8, amended. In the live variant [startRecording], when no recording
    is running, checks before it changes anything: outside the chat mode
    it only shows "Voice works only in chat mode.", without the
    recognizer constructor it only shows "Speech recognition not
    supported.", and only otherwise it increments the session counter,
    clears the input field, makes and starts a recognizer, and sets the
    interval.  In the PCM recorder it only shows the same message
    outside the chat mode; there is no counter and no availability test:
    when the microphone is refused the call fails with the store as it
    was, and when the backend opens it empties both chunk buffers,
    connects a new processor and sets the interval. *)
Theorem start_preconditions :
  (forall s : LiveToken.store,
      LiveToken.isRecording s = false ->
      (LiveToken.selectedMode s <> Some (Js.lit "ask") ->
       LiveToken.startRecording s
       = LiveToken.addMessage
           (Page.warning_sign ++ Js.lit " Voice works only in chat mode.")
           Page.Bot s)
      /\ (LiveToken.selectedMode s = Some (Js.lit "ask") ->
          LiveToken.SpeechRecognition s = false ->
          LiveToken.startRecording s
          = LiveToken.addMessage
              (Page.warning_sign
               ++ Js.lit " Speech recognition not supported.")
              Page.Bot s)
      /\ (LiveToken.selectedMode s = Some (Js.lit "ask") ->
          LiveToken.SpeechRecognition s = true ->
          let s' := LiveToken.startRecording s in
          LiveToken.speechSessionId s'
          = (LiveToken.speechSessionId s + 1)%N
          /\ LiveToken.isRecording s' = true
          /\ LiveToken.userInput s'
             = LiveToken.assign [] (LiveToken.userInput s)
          /\ LiveToken.recognizer s'
             = Some (length (LiveToken.recognizers s))
          /\ LiveToken.recognizers s'
             = LiveToken.torn_down s
               ++ [LiveToken.RecognizerObject
                     (LiveToken.speechSessionId s + 1)%N Page.Started]
          /\ LiveToken.timers s'
             = LiveToken.timers s
               ++ [LiveToken.Interval
                     (LiveToken.speechSessionId s + 1)%N 0 true]))
  /\ (forall s : Pcm.store,
      (Pcm.selectedMode s <> Some (Js.lit "ask") ->
       Pcm.startRecording s
       = Pcm.StartRefused
           (Pcm.addMessage
              (Page.warning_sign ++ Js.lit " Voice works only in chat mode.")
              Page.Bot s))
      /\ (Pcm.selectedMode s = Some (Js.lit "ask") ->
          Pcm.startRecording s = Pcm.AwaitingMicrophone s)
      /\ (forall b : Pcm.backend,
          Pcm.microphone b = false ->
          Pcm.startRecording_resume b s = Pcm.Threw s)
      /\ (forall b : Pcm.backend,
          Pcm.microphone b = true -> Pcm.audio_context b = true ->
          exists s' : Pcm.store,
            Pcm.startRecording_resume b s = Pcm.Returned s'
            /\ Pcm.pcmChunks s' = [] /\ Pcm.wavChunks s' = []
            /\ Pcm.seconds s' = 0%N
            /\ Pcm.streams s' = Pcm.streams s ++ [true]
            /\ Pcm.processor s' = Some (length (Pcm.graphs s))
            /\ Pcm.graphs s' = Pcm.graphs s ++ [true]
            /\ Pcm.timer s' = Some (length (Pcm.timers s))
            /\ Pcm.timers s' = Pcm.timers s ++ [true]
            /\ Pcm.selectedMode s' = Pcm.selectedMode s
            /\ Pcm.chat s' = Pcm.chat s
            /\ Pcm.requests s' = Pcm.requests s)).
Proof.
  split.
  - intros s Hrec. split; [|split].
    + intros Hmode. unfold LiveToken.startRecording. rewrite Hrec.
      now rewrite bool_decide_eq_true_2.
    + intros Hmode Hsup. unfold LiveToken.startRecording.
      rewrite Hrec, Hmode, Hsup.
      now rewrite bool_decide_eq_false_2 by (intros H; now apply H).
    + intros Hmode Hsup s'. subst s'.
      rewrite startRecording_success by assumption.
      repeat split.
  - intros s. split; [|split; [|split]].
    + intros Hmode. unfold Pcm.startRecording.
      now rewrite bool_decide_eq_true_2.
    + intros Hmode. unfold Pcm.startRecording. rewrite Hmode.
      now rewrite bool_decide_eq_false_2 by (intros H; now apply H).
    + intros b Hb. unfold Pcm.startRecording_resume. now rewrite Hb.
    + intros b Hm Ha. unfold Pcm.startRecording_resume. rewrite Hm, Ha.
      eexists. split; [reflexivity|]. repeat split.
Qed.

Lemma start_preconditions_witness :
  let s := LiveToken.handleSelection (Js.lit "ask") (LiveToken.initial true) in
  LiveToken.speechSessionId (LiveToken.startRecording s) = 2%N
  /\ LiveToken.startRecording (LiveToken.initial true)
     = LiveToken.addMessage
         (Page.warning_sign ++ Js.lit " Voice works only in chat mode.")
         Page.Bot (LiveToken.initial true)
  /\ LiveToken.startRecording
       (LiveToken.handleSelection (Js.lit "ask") (LiveToken.initial false))
     = LiveToken.addMessage
         (Page.warning_sign ++ Js.lit " Speech recognition not supported.")
         Page.Bot
         (LiveToken.handleSelection (Js.lit "ask") (LiveToken.initial false))
  /\ Pcm.startRecording Pcm.initial
     = Pcm.StartRefused
         (Pcm.addMessage
            (Page.warning_sign ++ Js.lit " Voice works only in chat mode.")
            Page.Bot Pcm.initial)
  /\ Pcm.startRecording (Pcm.handleSelection (Js.lit "ask") Pcm.initial)
     = Pcm.AwaitingMicrophone (Pcm.handleSelection (Js.lit "ask") Pcm.initial)
  /\ Pcm.startRecording_resume (Pcm.Backend false true) Pcm.initial
     = Pcm.Threw Pcm.initial
  /\ exists s' : Pcm.store,
       Pcm.startRecording_resume (Pcm.Backend true true) Pcm.initial
       = Pcm.Returned s'
       /\ Pcm.graphs s' = [true].
Proof.
  intros s. destruct start_preconditions as [Hlive Hpcm].
  split.
  { destruct (Hlive s eq_refl) as (_ & _ & H).
    destruct (H eq_refl eq_refl) as [H1 _]. exact H1. }
  split.
  { destruct (Hlive (LiveToken.initial true) eq_refl) as (H & _).
    apply H. discriminate. }
  split.
  { destruct (Hlive (LiveToken.handleSelection (Js.lit "ask")
                       (LiveToken.initial false)) eq_refl) as (_ & H & _).
    apply H; reflexivity. }
  split.
  { destruct (Hpcm Pcm.initial) as (H & _). apply H. discriminate. }
  split.
  { destruct (Hpcm (Pcm.handleSelection (Js.lit "ask") Pcm.initial))
      as (_ & H & _). apply H. reflexivity. }
  split.
  { destruct (Hpcm Pcm.initial) as (_ & _ & H & _). apply H. reflexivity. }
  destruct (Hpcm Pcm.initial) as (_ & _ & _ & H).
  destruct (H (Pcm.Backend true true) eq_refl eq_refl)
    as (s' & Hs' & _ & _ & _ & _ & _ & Hg & _).
  exists s'. split; [exact Hs'|exact Hg].
Defined.

(** The claim C9 fails while a recording is running: a second trigger is
    ignored, the session counter and the recognizer stay as they are. *)
Lemma restart_while_recording_ignored :
  let s := LiveToken.startRecording
             (LiveToken.handleSelection (Js.lit "ask")
                (LiveToken.initial true)) in
  LiveToken.isRecording s = true
  /\ LiveToken.startRecording s = s
  /\ LiveToken.speechSessionId (LiveToken.startRecording s)
     = LiveToken.speechSessionId s
  /\ LiveToken.recognizers (LiveToken.startRecording s)
     = [LiveToken.RecognizerObject 2 Page.Started].
Proof. vm_compute. repeat split. Qed.

(** C9, amended. In the live variant [startRecording] does nothing while
    a recording is running.  Otherwise, once its two checks have passed,
    it first resets whatever an earlier session left: the session
    counter is incremented, a recognizer still referenced is aborted, the
    input field is cleared and the preview hidden; then a fresh
    recognizer is made. *)
Theorem start_resets_unless_recording (s : LiveToken.store) :
  (LiveToken.isRecording s = true -> LiveToken.startRecording s = s)
  /\ (LiveToken.isRecording s = false ->
      LiveToken.selectedMode s = Some (Js.lit "ask") ->
      LiveToken.SpeechRecognition s = true ->
      let s' := LiveToken.startRecording s in
      LiveToken.speechSessionId s' = (LiveToken.speechSessionId s + 1)%N
      /\ (forall (i : nat) (r : LiveToken.recognizer_object),
          LiveToken.recognizer s = Some i ->
          LiveToken.recognizers s !! i = Some r ->
          LiveToken.recognizers s' !! i
          = Some (LiveToken.RecognizerObject (LiveToken.r_session r)
                    Page.Aborted))
      /\ LiveToken.recognizer s' = Some (length (LiveToken.recognizers s))
      /\ LiveToken.recognizers s' !! length (LiveToken.recognizers s)
         = Some (LiveToken.RecognizerObject
                   (LiveToken.speechSessionId s + 1)%N Page.Started)
      /\ LiveToken.userInput s' = LiveToken.assign [] (LiveToken.userInput s)
      /\ LiveToken.voicePreview s'
         = LiveToken.assign Page.DisplayNone (LiveToken.voicePreview s)
      /\ LiveToken.isRecording s' = true).
Proof.
  split.
  - intros Hrec. unfold LiveToken.startRecording. now rewrite Hrec.
  - intros Hrec Hmode Hsup s'. subst s'.
    rewrite startRecording_success by assumption. live_fields.
    split; [reflexivity|]. split.
    { intros i r Hi Hr. unfold LiveToken.torn_down. rewrite Hi.
      assert (i < length (LiveToken.recognizers s))%nat
        by (eapply lookup_lt_Some; eauto).
      rewrite lookup_app_l by now rewrite length_alter.
      rewrite list_lookup_alter_eq, Hr. reflexivity. }
    split; [reflexivity|]. split; [|repeat split].
    rewrite <- (length_torn_down s). apply list_lookup_middle. reflexivity.
Qed.

Lemma start_resets_unless_recording_witness :
  let s := LiveToken.stopRecording
             (LiveToken.startRecording
                (LiveToken.handleSelection (Js.lit "ask")
                   (LiveToken.initial true))) in
  LiveToken.speechSessionId (LiveToken.startRecording s) = 3%N
  /\ LiveToken.recognizers (LiveToken.startRecording s) !! 0%nat
     = Some (LiveToken.RecognizerObject 2 Page.Aborted)
  /\ LiveToken.startRecording (LiveToken.startRecording s)
     = LiveToken.startRecording s.
Proof.
  intros s.
  destruct (start_resets_unless_recording s) as [_ H].
  destruct (H eq_refl eq_refl eq_refl) as (Hid & Hold & _).
  split; [exact Hid|]. split.
  - exact (Hold 0%nat (LiveToken.RecognizerObject 2 Page.Stopped)
             eq_refl eq_refl).
  - apply (start_resets_unless_recording (LiveToken.startRecording s)).
    reflexivity.
Defined.

(** ** Stale callbacks *)

(** The claim C1 fails in the PCM recorder, whose handlers carry no
    token: when a second recording is started while the first one is
    running, the first processor stays connected, and a frame it
    delivers lands in the buffers of the second recording. *)
Lemma pcm_stale_frame_reaches_new_session :
  exists sB : Pcm.store,
    Pcm.run [Pcm.Select (Js.lit "ask");
             Pcm.StartCall; Pcm.StartResume (Pcm.Backend true true);
             Pcm.StartCall; Pcm.StartResume (Pcm.Backend true true)]
      Pcm.initial = Some sB
    /\ Pcm.processor sB = Some 1%nat
    /\ Pcm.graphs sB = [true; true]
    /\ Pcm.pcmChunks sB = [] /\ Pcm.wavChunks sB = []
    /\ exists s' : Pcm.store,
         Pcm.audio_event 0 [Num.Fin (1 # 2)] sB = Some s'
         /\ Pcm.pcmChunks s' = [[xff; x3f]]
         /\ Pcm.wavChunks s' = [[16383]]
         /\ Pcm.pcmChunks s' <> Pcm.pcmChunks sB.
Proof.
  eexists. split; [vm_compute; reflexivity|].
  vm_compute. repeat split.
  eexists. split; [reflexivity|]. repeat split. discriminate.
Qed.

(** In the live variant the error handler is registered without the
    test its siblings make: an error delivered by the recognizer of an
    earlier session resets the session that is running. *)
Remark live_stale_error_resets_session :
  let sA := LiveToken.startRecording
              (LiveToken.handleSelection (Js.lit "ask")
                 (LiveToken.initial true)) in
  let sB := LiveToken.startRecording (LiveToken.stopRecording sA) in
  LiveToken.isRecording sB = true
  /\ LiveToken.recognizer sB = Some 1%nat
  /\ exists s' : LiveToken.store,
       LiveToken.error_event_of 0 sB = Some s'
       /\ LiveToken.isRecording s' = false
       /\ LiveToken.recognizer s' = None.
Proof.
  vm_compute. split; [reflexivity|]. split; [reflexivity|].
  eexists. split; [reflexivity|]. split; reflexivity.
Qed.

(** C1, amended. In the live variant the result handler and the interval
    handler close over the session counter as it is when
    [startRecording] registers them, and test it when they fire: with a
    counter that has moved on, the result handler changes nothing and the
    interval handler only cancels its own interval.  A start that passes
    its checks increments the counter, so every handler registered
    before it is stale afterwards and leaves the input field and the
    displayed time of the new session alone.  (The PCM recorder has no
    such counter.) *)
Theorem stale_callbacks_gated :
  (forall (c : N) (ev : Page.result_event) (s : LiveToken.store),
      c <> LiveToken.speechSessionId s -> LiveToken.onresult c ev s = s)
  /\ (forall (i : nat) (t : LiveToken.interval) (s : LiveToken.store),
      LiveToken.t_session t <> LiveToken.speechSessionId s ->
      LiveToken.ontick i t s
      = LiveToken.set_timers
          (<[i := LiveToken.Interval (LiveToken.t_session t)
                    (LiveToken.t_seconds t) false]> (LiveToken.timers s)) s)
  /\ (forall s : LiveToken.store,
      LiveToken.isRecording s = false ->
      LiveToken.selectedMode s = Some (Js.lit "ask") ->
      LiveToken.SpeechRecognition s = true ->
      let s' := LiveToken.startRecording s in
      last (LiveToken.recognizers s')
      = Some (LiveToken.RecognizerObject (LiveToken.speechSessionId s')
                Page.Started)
      /\ last (LiveToken.timers s')
         = Some (LiveToken.Interval (LiveToken.speechSessionId s') 0 true)
      /\ forall c : N,
           (c <= LiveToken.speechSessionId s)%N ->
           (forall ev, LiveToken.onresult c ev s' = s')
           /\ (forall i sec act,
               let s'' := LiveToken.ontick i (LiveToken.Interval c sec act) s'
               in LiveToken.userInput s'' = LiveToken.userInput s'
                  /\ LiveToken.recordingTime s'' = LiveToken.recordingTime s'
                  /\ LiveToken.speechSessionId s''
                     = LiveToken.speechSessionId s'
                  /\ LiveToken.isRecording s'' = LiveToken.isRecording s')).
Proof.
  assert (Hres : forall c ev s,
             c <> LiveToken.speechSessionId s -> LiveToken.onresult c ev s = s).
  { intros c ev s Hc. unfold LiveToken.onresult.
    rewrite (bool_decide_eq_true_2 _ Hc). now rewrite orb_true_r. }
  assert (Htick : forall i t s,
             LiveToken.t_session t <> LiveToken.speechSessionId s ->
             LiveToken.ontick i t s
             = LiveToken.set_timers
                 (<[i := LiveToken.Interval (LiveToken.t_session t)
                           (LiveToken.t_seconds t) false]>
                    (LiveToken.timers s)) s).
  { intros i t s Hc. unfold LiveToken.ontick.
    rewrite (bool_decide_eq_true_2 _ Hc). now rewrite orb_true_r. }
  split; [exact Hres|]. split; [exact Htick|].
  intros s Hrec Hmode Hsup s'.
  assert (Hs' : s' = LiveToken.startRecording s) by reflexivity.
  rewrite startRecording_success in Hs' by assumption.
  assert (Hid : LiveToken.speechSessionId s'
                = (LiveToken.speechSessionId s + 1)%N) by now rewrite Hs'.
  split; [rewrite Hid, Hs'; apply last_snoc|].
  split; [rewrite Hid, Hs'; apply last_snoc|].
  intros c Hc. split.
  - intros ev. apply Hres. lia.
  - intros i sec act s''. subst s''.
    rewrite Htick by (cbn; lia). repeat split.
Qed.

Lemma stale_callbacks_gated_witness :
  let sA := LiveToken.startRecording
              (LiveToken.handleSelection (Js.lit "ask")
                 (LiveToken.initial true)) in
  let sB := LiveToken.startRecording (LiveToken.stopRecording sA) in
  let ev := Page.ResultEvent 0 [Page.Result (Js.lit "old") false] in
  LiveToken.onresult (LiveToken.speechSessionId sA) ev sB = sB
  /\ LiveToken.userInput
       (LiveToken.onresult (LiveToken.speechSessionId sB) ev sB)
     = Some (Js.lit "old").
Proof.
  intros sA sB ev. split; [|reflexivity].
  destruct stale_callbacks_gated as (_ & _ & H).
  destruct (H (LiveToken.stopRecording sA) eq_refl eq_refl eq_refl)
    as (_ & _ & Hstale).
  apply (Hstale (LiveToken.speechSessionId sA)). reflexivity.
Defined.

(** ** The live transcript *)

Section Accumulator.

Import LiveSimple.

(** The text of the entries not marked final, in order. *)
Lemma scan_fold (entries : list result) (interim finalText : jsstring) :
  fold_left
    (fun '(interim, finalText) r =>
       let txt := transcript r in
       if isFinal r then (interim, finalText ++ txt ++ Js.lit " ")
       else (interim ++ txt, finalText))
    entries (interim, finalText)
  = (interim
     ++ concat (map transcript (filter (fun r => isFinal r = false) entries)),
     finalText ++ Spec.finals entries).
Proof.
  unfold Spec.finals.
  revert interim finalText.
  induction entries as [|r entries IH]; intros interim finalText.
  - simpl. now rewrite !app_nil_r.
  - cbn [fold_left]. rewrite !filter_cons.
    destruct (isFinal r) eqn:E; cbv zeta.
    + rewrite IH. rewrite decide_False by discriminate.
      rewrite decide_True by reflexivity.
      cbn [map concat]. now rewrite <- !app_assoc.
    + rewrite IH. rewrite decide_True by reflexivity.
      rewrite decide_False by discriminate.
      cbn [map concat]. now rewrite <- !app_assoc.
Qed.

Lemma scan_spec (ev : result_event) :
  let entries := drop (resultIndex ev) (results ev) in
  scan ev
  = (concat (map transcript (filter (fun r => isFinal r = false) entries)),
     Spec.finals entries).
Proof. cbv zeta. unfold scan. now rewrite scan_fold. Qed.

End Accumulator.

(** The claim C5 fails where a pass meets two entries that are not yet
    final: the field shows both, not the last one alone.  And when
    nothing has been marked final, [stopRecording] leaves the partial
    text in the field. *)
Lemma interim_entries_accumulate :
  let s := LiveSimple.startRecording LiveSimple.ready in
  let ev := Page.ResultEvent 0 [Page.Result (Js.lit "a") false;
                                Page.Result (Js.lit "b") false] in
  Spec.last_not_final (drop (Page.resultIndex ev) (Page.results ev))
  = Some (Js.lit "b")
  /\ LiveSimple.liveTranscript (LiveSimple.onresult ev s) = []
  /\ LiveSimple.userInput (LiveSimple.onresult ev s) = Some (Js.lit "ab")
  /\ LiveSimple.userInput (LiveSimple.onresult ev s)
     <> Some (Js.trim (LiveSimple.liveTranscript (LiveSimple.onresult ev s)
                       ++ Js.lit "b"))
  /\ LiveSimple.userInput
       (LiveSimple.stopRecording
          (LiveSimple.onresult
             (Page.ResultEvent 0 [Page.Result (Js.lit "hel") false]) s))
     = Some (Js.lit "hel").
Proof. vm_compute. repeat split. discriminate. Qed.

(** C5, amended. In the first live revision every result event is
    processed (there is no token).  The text of the entries marked final,
    each followed by a space, is appended to the committed text, which a
    result event never rewrites; the texts of all entries of the pass not
    yet final, joined in order, are the pending text of this event alone;
    the field shows committed + pending, trimmed.  [stopRecording],
    while a recording is running, sets the field to the committed text,
    trimmed, when that text is not empty, and otherwise leaves the field
    as it is; the committed text stays. *)
Theorem transcript_accumulation :
  (forall (ev : Page.result_event) (s : LiveSimple.store),
      let entries := drop (Page.resultIndex ev) (Page.results ev) in
      let pending :=
        concat (map Page.transcript
                  (filter (fun r => Page.isFinal r = false) entries)) in
      let s' := LiveSimple.onresult ev s in
      LiveSimple.liveTranscript s'
      = LiveSimple.liveTranscript s ++ Spec.finals entries
      /\ LiveSimple.userInput s'
         = LiveSimple.assign
             (Js.trim (LiveSimple.liveTranscript s' ++ pending))
             (LiveSimple.userInput s)
      /\ LiveSimple.isRecording s' = LiveSimple.isRecording s)
  /\ (forall s : LiveSimple.store,
      LiveSimple.isRecording s = true ->
      let s' := LiveSimple.stopRecording s in
      LiveSimple.userInput s'
      = (if Js.truthy (LiveSimple.liveTranscript s)
         then LiveSimple.assign (Js.trim (LiveSimple.liveTranscript s))
                (LiveSimple.userInput s)
         else LiveSimple.userInput s)
      /\ LiveSimple.liveTranscript s' = LiveSimple.liveTranscript s
      /\ LiveSimple.isRecording s' = false).
Proof.
  split.
  - intros ev s entries pending s'. subst s'.
    unfold LiveSimple.onresult.
    pose proof (scan_spec ev) as Hscan. cbv zeta in Hscan.
    fold entries in Hscan. fold pending in Hscan. rewrite Hscan.
    simple_fields. repeat split.
  - intros s Hrec s'. subst s'. unfold LiveSimple.stopRecording.
    rewrite Hrec. cbn [negb].
    simple_fields.
    destruct (LiveSimple.liveRecognizer s); simple_fields;
      destruct (Js.truthy (LiveSimple.liveTranscript s)); simple_fields;
      repeat split.
Qed.

Lemma transcript_accumulation_witness :
  let s := LiveSimple.startRecording LiveSimple.ready in
  let partial := Page.ResultEvent 0 [Page.Result (Js.lit "hel") false] in
  let final := Page.ResultEvent 0 [Page.Result (Js.lit "hello ") true] in
  let s2 := LiveSimple.onresult final (LiveSimple.onresult partial s) in
  LiveSimple.userInput (LiveSimple.stopRecording s2) = Some (Js.lit "hello")
  /\ LiveSimple.liveTranscript (LiveSimple.stopRecording s2)
     = Js.lit "hello  ".
Proof.
  intros s partial final s2.
  destruct transcript_accumulation as [_ H].
  assert (Hrec : LiveSimple.isRecording s2 = true)
    by (vm_compute; reflexivity).
  destruct (H s2 Hrec) as (Hin & Hlt & _).
  split; [rewrite Hin|rewrite Hlt]; vm_compute; reflexivity.
Defined.

(** * Further properties of the code *)

(** ** Encoders *)

(** The preview container and the merged upload depend on the recorded
    samples only, not on how the frames cut them into chunks. *)
Theorem rechunking_invariance :
  (forall (chunks chunks' : list (list Z)) (sampleRate : Z),
      concat chunks = concat chunks' ->
      Wav.createWavBlob chunks sampleRate
      = Wav.createWavBlob chunks' sampleRate)
  /\ (forall pcm pcm' : list (list byte),
      concat pcm = concat pcm' -> Pcm.merge pcm = Pcm.merge pcm').
Proof.
  split.
  - intros chunks chunks' sampleRate H.
    rewrite !createWavBlob_layout. unfold Wav.layout, Wav.sample_bytes.
    now rewrite H.
  - intros pcm pcm' H. rewrite !merge_concat. now rewrite H.
Qed.

Lemma rechunking_invariance_witness :
  Wav.createWavBlob [[1; 2]; [3]] 16000 = Wav.createWavBlob [[1]; [2; 3]] 16000
  /\ Pcm.merge [[x01; x02]; [x03]] = Pcm.merge [[x01]; []; [x02; x03]].
Proof.
  destruct rechunking_invariance as [Hwav Hmerge].
  split; [apply Hwav|apply Hmerge]; reflexivity.
Defined.

Lemma le32_value_wrap (v : Z) :
  Js.byte_val (Js.u8 v) + 256 * Js.byte_val (Js.u8 (v / 256))
  + 65536 * (Js.byte_val (Js.u8 (v / 65536))
             + 256 * Js.byte_val (Js.u8 (v / 16777216)))
  = v mod 4294967296.
Proof. rewrite !byte_val_u8. lia. Qed.

(** The four 32-bit fields of the header hold their value modulo 2^32,
    whatever the sample rate passed and however long the recording: a
    value that does not fit is wrapped, never rejected. *)
Theorem header_fields_wrap (chunks : list (list Z)) (sampleRate : Z) :
  let dataBytes := Z.of_nat (length (concat chunks)) * 2 in
  exists wav : list byte,
    Wav.createWavBlob chunks sampleRate = Some wav
    /\ Wav.read_u32le wav 4 = Some ((36 + dataBytes) mod 4294967296)
    /\ Wav.read_u32le wav 24 = Some (sampleRate mod 4294967296)
    /\ Wav.read_u32le wav 28 = Some ((sampleRate * 2) mod 4294967296)
    /\ Wav.read_u32le wav 40 = Some (dataBytes mod 4294967296).
Proof.
  intros dataBytes. exists (Wav.layout chunks sampleRate).
  split; [apply createWavBlob_layout|].
  repeat split.
  - change (Wav.read_u32le (Wav.layout chunks sampleRate) 4)
      with (Some (let v := 36 + dataBytes in
                  Js.byte_val (Js.u8 v) + 256 * Js.byte_val (Js.u8 (v / 256))
                  + 65536 * (Js.byte_val (Js.u8 (v / 65536))
                     + 256 * Js.byte_val (Js.u8 (v / 16777216))))).
    cbv zeta. now rewrite le32_value_wrap.
  - change (Wav.read_u32le (Wav.layout chunks sampleRate) 24)
      with (Some (let v := sampleRate in
                  Js.byte_val (Js.u8 v) + 256 * Js.byte_val (Js.u8 (v / 256))
                  + 65536 * (Js.byte_val (Js.u8 (v / 65536))
                     + 256 * Js.byte_val (Js.u8 (v / 16777216))))).
    cbv zeta. now rewrite le32_value_wrap.
  - change (Wav.read_u32le (Wav.layout chunks sampleRate) 28)
      with (Some (let v := sampleRate * 2 in
                  Js.byte_val (Js.u8 v) + 256 * Js.byte_val (Js.u8 (v / 256))
                  + 65536 * (Js.byte_val (Js.u8 (v / 65536))
                     + 256 * Js.byte_val (Js.u8 (v / 16777216))))).
    cbv zeta. now rewrite le32_value_wrap.
  - change (Wav.read_u32le (Wav.layout chunks sampleRate) 40)
      with (Some (let v := dataBytes in
                  Js.byte_val (Js.u8 v) + 256 * Js.byte_val (Js.u8 (v / 256))
                  + 65536 * (Js.byte_val (Js.u8 (v / 65536))
                     + 256 * Js.byte_val (Js.u8 (v / 16777216))))).
    cbv zeta. now rewrite le32_value_wrap.
Qed.

Section Transport_shape.

Import Base64.

Lemma encode_sextet_in_alphabet (v : N) :
  is_Some (decode_sextet (encode_sextet v)).
Proof.
  unfold encode_sextet.
  destruct (N.ltb_spec v 26); [|destruct (N.ltb_spec v 52);
    [|destruct (N.ltb_spec v 62); [|destruct (N.eqb_spec v 62)]]];
  unfold decode_sextet;
  repeat match goal with
  | |- context [(?a <=? ?b)%N] => destruct (N.leb_spec a b); try lia
  | |- context [(?a =? ?b)%N] => destruct (N.eqb_spec a b); try lia
  end; simpl; eauto.
Qed.

Lemma encode_units_shape (l : list N) :
  length (encode_units l) = (4 * ((length l + 2) / 3))%nat
  /\ Forall (fun c => is_Some (decode_sextet c) \/ c = pad) (encode_units l).
Proof.
  induction l as [|a|a b|a b c l [IHl IHf]] using list_ind3.
  - split; [reflexivity|constructor].
  - split; [reflexivity|].
    cbn [encode_units].
    repeat (apply List.Forall_cons;
            [first [left; apply encode_sextet_in_alphabet
                   |right; reflexivity]|]).
    apply List.Forall_nil.
  - split; [reflexivity|].
    cbn [encode_units].
    repeat (apply List.Forall_cons;
            [first [left; apply encode_sextet_in_alphabet
                   |right; reflexivity]|]).
    apply List.Forall_nil.
  - cbn [encode_units length]. split.
    + rewrite IHl.
      replace (S (S (S (length l))) + 2)%nat with (length l + 2 + 1 * 3)%nat
        by lia.
      rewrite Nat.div_add by lia. lia.
    + repeat (apply List.Forall_cons;
                [left; apply encode_sextet_in_alphabet|]).
      exact IHf.
Qed.

End Transport_shape.

(** [uint8ToBase64] turns [n] bytes into a text of [4 * ceil(n / 3)]
    characters, each a letter of the Base64 alphabet or the padding
    sign: the upload is plain ASCII whatever the audio. *)
Theorem transport_text_shape (u8Arr : list byte) :
  exists text : jsstring,
    Transport.uint8ToBase64 u8Arr = Some text
    /\ length text = (4 * ((length u8Arr + 2) / 3))%nat
    /\ Forall (fun c => is_Some (Base64.decode_sextet c) \/ c = Base64.pad)
         text.
Proof.
  rewrite uint8ToBase64_spec. eexists. split; [reflexivity|].
  destruct (encode_units_shape (Js.fromCharCode u8Arr)) as [Hl Hf].
  split; [|exact Hf].
  rewrite Hl. unfold Js.fromCharCode. now rewrite length_map.
Qed.

(** ** The conversion of a sample *)

Section Conversion_edges.

Import Num.

Lemma truncate_mono (p q : Q) : (p <= q)%Q -> truncate p <= truncate q.
Proof.
  unfold Qle, truncate. intros H.
  rewrite <- (Z.quot_mul_cancel_r (Qnum p) (Zpos (Qden p)) (Zpos (Qden q)))
    by discriminate.
  rewrite <- (Z.quot_mul_cancel_r (Qnum q) (Zpos (Qden q)) (Zpos (Qden p)))
    by discriminate.
  rewrite (Z.mul_comm (Zpos (Qden q)) (Zpos (Qden p))).
  apply Z.quot_le_mono; lia.
Qed.

Lemma truncate_opp (q : Q) : truncate (- q) = - truncate q.
Proof.
  unfold truncate. cbn [Qopp Qnum Qden].
  apply Z.quot_opp_l. discriminate.
Qed.

Lemma Qle_bool_false (a b : Q) : Qle_bool a b = false -> (b < a)%Q.
Proof.
  intros H. apply Qnot_le_lt. intros Hle.
  apply Qle_bool_iff in Hle. congruence.
Qed.

Ltac clamp_cases :=
  unfold Spec.clamp;
  repeat match goal with
  | |- context [Qle_bool ?a ?b] =>
      let E := fresh "E" in
      destruct (Qle_bool a b) eqn:E;
      [apply Qle_bool_iff in E|apply Qle_bool_false in E]
  end.

Lemma clamp_mono (p q : Q) :
  (p <= q)%Q -> (Spec.clamp p (-1) 1 <= Spec.clamp q (-1) 1)%Q.
Proof. intros H. clamp_cases; lra. Qed.

Lemma clamp_opp (q : Q) :
  Spec.clamp (- q) (-1) 1 == - Spec.clamp q (-1) 1.
Proof. clamp_cases; lra. Qed.

Lemma clamp_high (q : Q) : (1 <= q)%Q -> Spec.clamp q (-1) 1 == 1.
Proof. intros H. clamp_cases; lra. Qed.

Lemma clamp_low (q : Q) : (q <= -1)%Q -> Spec.clamp q (-1) 1 == -1.
Proof. intros H. clamp_cases; lra. Qed.

End Conversion_edges.

(** No number, finite or not, is stored outside [-32767, 32767]. *)
Lemma to_pcm16_stored (x : Num.number) : -32767 <= Pcm.to_pcm16 x <= 32767.
Proof.
  destruct x as [q| | |];
    [apply to_pcm16_saturate_round|compute; split; discriminate..].
Qed.

(** What the conversion loop stores for the samples outside [-1, 1]:
    NaN becomes silence, everything at or beyond full scale, the
    infinities included, becomes 32767 or -32767.  No sample ever
    becomes -32768. *)
Theorem conversion_saturates :
  Pcm.to_pcm16 Num.NaN = 0
  /\ Pcm.to_pcm16 Num.PosInf = 32767
  /\ Pcm.to_pcm16 Num.NegInf = -32767
  /\ (forall q : Q, (1 <= q)%Q -> Pcm.to_pcm16 (Num.Fin q) = 32767)
  /\ (forall q : Q, (q <= -1)%Q -> Pcm.to_pcm16 (Num.Fin q) = -32767)
  /\ (forall x : Num.number, -32767 <= Pcm.to_pcm16 x <= 32767).
Proof.
  split; [reflexivity|]. split; [reflexivity|]. split; [reflexivity|].
  split; [|split].
  - intros q Hq. destruct (to_pcm16_saturate_round q) as [-> _].
    unfold Spec.saturate_round.
    rewrite (truncate_Qeq _ (1 * 32767)); [reflexivity|].
    now rewrite (clamp_high q Hq).
  - intros q Hq. destruct (to_pcm16_saturate_round q) as [-> _].
    unfold Spec.saturate_round.
    rewrite (truncate_Qeq _ (-1 * 32767)); [reflexivity|].
    now rewrite (clamp_low q Hq).
  - exact to_pcm16_stored.
Qed.

Lemma conversion_saturates_witness :
  Pcm.to_pcm16 (Num.Fin (3 # 2)) = 32767
  /\ Pcm.to_pcm16 (Num.Fin (-2 # 1)) = -32767.
Proof.
  destruct conversion_saturates as (_ & _ & _ & Hhi & Hlo & _).
  split; [apply Hhi|apply Hlo]; discriminate.
Defined.

(** The conversion keeps the order of the samples and their symmetry
    around zero: a louder sample never gets a smaller value, and negating
    a sample negates its value. *)
Theorem conversion_monotone_odd :
  (forall p q : Q,
      (p <= q)%Q -> Pcm.to_pcm16 (Num.Fin p) <= Pcm.to_pcm16 (Num.Fin q))
  /\ (forall q : Q,
      Pcm.to_pcm16 (Num.Fin (- q)) = - Pcm.to_pcm16 (Num.Fin q)).
Proof.
  split.
  - intros p q H.
    destruct (to_pcm16_saturate_round p) as [-> _].
    destruct (to_pcm16_saturate_round q) as [-> _].
    apply truncate_mono. pose proof (clamp_mono p q H). lra.
  - intros q.
    destruct (to_pcm16_saturate_round (- q)) as [-> _].
    destruct (to_pcm16_saturate_round q) as [-> _].
    unfold Spec.saturate_round. rewrite <- truncate_opp.
    apply truncate_Qeq. rewrite clamp_opp. lra.
Qed.

Lemma conversion_monotone_odd_witness :
  Pcm.to_pcm16 (Num.Fin (1 # 3)) <= Pcm.to_pcm16 (Num.Fin (1 # 2)).
Proof.
  apply conversion_monotone_odd. discriminate.
Defined.

(** ** The recorder's handlers *)

Section Recorder.

Import Pcm.

Lemma store_eq (a b : store) :
  selectedMode a = selectedMode b -> chat a = chat b ->
  micStream a = micStream b -> audioContext a = audioContext b ->
  input a = input b -> processor a = processor b ->
  pcmChunks a = pcmChunks b -> wavChunks a = wavChunks b ->
  timer a = timer b -> seconds a = seconds b ->
  recordingBar a = recordingBar b -> voicePreview a = voicePreview b ->
  recordingTime a = recordingTime b -> audioPlayback a = audioPlayback b ->
  streams a = streams b -> contexts a = contexts b ->
  graphs a = graphs b -> timers a = timers b -> requests a = requests b ->
  a = b.
Proof. destruct a, b. cbn. intros. subst. reflexivity. Qed.

Lemma insert_false_not_true (l : list bool) (i j : nat) :
  <[i := false]> l !! j = Some true -> i <> j /\ l !! j = Some true.
Proof.
  intros H. destruct (decide (i = j)) as [->|Hne].
  - destruct (decide (j < length l)%nat).
    + rewrite list_lookup_insert_eq in H by assumption. discriminate.
    + rewrite list_insert_ge in H by lia.
      apply lookup_lt_Some in H. lia.
  - split; [assumption|]. now rewrite list_lookup_insert_ne in H.
Qed.

(** What [stopRecording] leaves behind when it returns. *)
Lemma stopRecording_returned (s : store) (p i m : nat) :
  processor s = Some p -> input s = Some i -> micStream s = Some m ->
  stopRecording s
  = Returned
      (Store (selectedMode s) (chat s) (micStream s) (audioContext s)
         (input s) (processor s) (pcmChunks s) (wavChunks s) (timer s)
         (seconds s) DisplayNone DisplayBlock (recordingTime s)
         (Some (Wav.layout (wavChunks s) 16000))
         (<[m := false]> (streams s)) (contexts s)
         (<[i := false]> (<[p := false]> (graphs s)))
         (match timer s with
          | Some t => <[t := false]> (timers s)
          | None => timers s
          end)
         (requests s)).
Proof.
  intros Hp Hi Hm. unfold stopRecording.
  destruct (timer s) eqn:Et; pcm_fields;
    rewrite ?Hp; pcm_fields; rewrite ?Hi; pcm_fields;
    rewrite ?Hm; pcm_fields; rewrite createWavBlob_layout; f_equal;
    apply store_eq; pcm_fields; rewrite ?Et, ?Hp, ?Hi, ?Hm; reflexivity.
Qed.

End Recorder.

(** [stopRecording] before any recording was started throws: the page has
    made no processor yet, and the handler has by then only cleared the
    interval and hidden the recording bar.  After a start it returns:
    both buffers are kept, the preview holds the WAV container of the
    recorded samples, the panel is shown, and from then on the current
    processor delivers no frame and the current interval no tick. *)
Theorem stop_recording_behaviour (s : Pcm.store) :
  (Pcm.processor s = None ->
   Pcm.stopRecording s
   = Pcm.Threw (Pcm.set_recordingBar Page.DisplayNone
                  (Pcm.clearInterval (Pcm.timer s) s)))
  /\ (forall p i m : nat,
      Pcm.processor s = Some p -> Pcm.input s = Some i ->
      Pcm.micStream s = Some m ->
      exists s' : Pcm.store,
        Pcm.stopRecording s = Pcm.Returned s'
        /\ Pcm.pcmChunks s' = Pcm.pcmChunks s
        /\ Pcm.wavChunks s' = Pcm.wavChunks s
        /\ Pcm.audioPlayback s'
           = Some (Wav.layout (Pcm.wavChunks s) 16000)
        /\ Pcm.voicePreview s' = Page.DisplayBlock
        /\ Pcm.recordingBar s' = Page.DisplayNone
        /\ Pcm.requests s' = Pcm.requests s
        /\ (forall data, Pcm.audio_event p data s' = None)
        /\ Pcm.streams s' !! m <> Some true
        /\ (forall t, Pcm.timer s = Some t -> Pcm.timer_event t s' = None)).
Proof.
  split.
  - intros Hp. unfold Pcm.stopRecording. pcm_fields.
    assert (Hp' : Pcm.processor (Pcm.clearInterval (Pcm.timer s) s) = None)
      by (destruct (Pcm.timer s); exact Hp).
    now rewrite Hp'.
  - intros p i m Hp Hi Hm.
    rewrite (stopRecording_returned s p i m Hp Hi Hm).
    eexists. split; [reflexivity|]. pcm_fields.
    do 6 (split; [reflexivity|]).
    split; [|split].
    + intros data. unfold Pcm.audio_event. pcm_fields.
      destruct (<[i:=false]> (<[p:=false]> (Pcm.graphs s)) !! p)
        as [[|]|] eqn:E; try reflexivity.
      apply insert_false_not_true in E as [_ E].
      apply insert_false_not_true in E as [E _]. congruence.
    + intros E. apply insert_false_not_true in E as [E _]. congruence.
    + intros t Ht. unfold Pcm.timer_event. pcm_fields. rewrite Ht.
      destruct (<[t:=false]> (Pcm.timers s) !! t) as [[|]|] eqn:E;
        try reflexivity.
      apply insert_false_not_true in E as [E _]. congruence.
Qed.

Lemma stop_recording_behaviour_witness :
  Pcm.stopRecording Pcm.initial
  = Pcm.Threw (Pcm.set_recordingBar Page.DisplayNone
                 (Pcm.clearInterval (Pcm.timer Pcm.initial) Pcm.initial))
  /\ exists s' : Pcm.store,
       Pcm.stopRecording
         (Pcm.after (Pcm.startRecording_resume (Pcm.Backend true true)
                       Pcm.initial))
       = Pcm.Returned s'
       /\ Pcm.audio_event 0 [Num.Fin 1] s' = None.
Proof.
  split.
  - apply stop_recording_behaviour. reflexivity.
  - destruct (stop_recording_behaviour
                (Pcm.after (Pcm.startRecording_resume
                              (Pcm.Backend true true) Pcm.initial)))
      as [_ H].
    destruct (H 0%nat 0%nat 0%nat eq_refl eq_refl eq_refl)
      as (s' & Hs & _ & _ & _ & _ & _ & _ & Ha & _).
    exists s'. split; [exact Hs|apply Ha].
Defined.

Section Strays.

Import Pcm.

Lemma stray_of_view (s s' : store) (i : nat) :
  host_view s' = host_view s ->
  (stray_timer i s -> stray_timer i s')
  /\ (stray_processor i s -> stray_processor i s')
  /\ (stray_stream i s -> stray_stream i s').
Proof.
  unfold host_view, stray_timer, stray_processor, stray_stream.
  intros H. injection H as -> -> -> -> -> -> ->. tauto.
Qed.

Lemma stop_keeps_strays (s : store) (i : nat) :
  (stray_timer i s -> stray_timer i (after (stopRecording s)))
  /\ (stray_processor i s -> stray_processor i (after (stopRecording s)))
  /\ (stray_stream i s -> stray_stream i (after (stopRecording s))).
Proof.
  unfold stray_timer, stray_processor, stray_stream, stopRecording.
  destruct (timer s) as [t|] eqn:Et; pcm_fields;
    (destruct (processor s) as [p|] eqn:Ep; pcm_fields;
     [destruct (input s) as [n|] eqn:En; pcm_fields;
      [destruct (micStream s) as [m|] eqn:Em; pcm_fields;
       [destruct (Wav.createWavBlob (wavChunks s) 16000); pcm_fields|]|]|]);
    rewrite ?Et, ?Ep, ?En, ?Em;
    (split; [|split]);
    intros H; decompose [and] H; clear H; repeat split;
    rewrite ?list_lookup_insert_ne by congruence; assumption.
Qed.

Lemma start_keeps_strays (b : backend) (s : store) (i : nat) :
  (stray_timer i s -> stray_timer i (after (startRecording_resume b s)))
  /\ (stray_processor i s
      -> stray_processor i (after (startRecording_resume b s)))
  /\ (stray_stream i s -> stray_stream i (after (startRecording_resume b s))).
Proof.
  unfold stray_timer, stray_processor, stray_stream, startRecording_resume.
  destruct (microphone b); [|tauto]. cbn [negb].
  destruct (audio_context b); cbn [negb]; pcm_fields;
    (split; [|split]);
    intros H; decompose [and] H; clear H;
    match goal with
    | Hl : _ !! i = Some true |- _ =>
        pose proof (lookup_lt_Some _ _ _ Hl)
    end;
    repeat split;
    rewrite ?lookup_app_l by assumption;
    try assumption; try (intros [= Heq]; lia).
Qed.

Lemma step_keeps_strays (e : event) (s s' : store) (i : nat) :
  step e s = Some s' ->
  (stray_timer i s -> stray_timer i s')
  /\ (stray_processor i s -> stray_processor i s')
  /\ (stray_stream i s -> stray_stream i s').
Proof.
  destruct e; cbn [step]; intros He.
  - injection He as <-. apply stray_of_view. unfold handleSelection.
    destruct (bool_decide _); reflexivity.
  - injection He as <-. apply stray_of_view. unfold startRecording.
    destruct (bool_decide _); reflexivity.
  - injection He as <-. apply start_keeps_strays.
  - injection He as <-. apply stop_keeps_strays.
  - injection He as <-. apply stray_of_view. reflexivity.
  - injection He as <-. apply stray_of_view. unfold sendVoice.
    destruct (pcmChunks s); [reflexivity|].
    destruct (merge _ ≫= Transport.uint8ToBase64); reflexivity.
  - injection He as <-. apply stray_of_view. unfold sendVoice_resume.
    destruct r as [|t rp]; [reflexivity|].
    destruct (Js.truthy (field t)); reflexivity.
  - unfold audio_event in He.
    destruct (graphs s !! node) as [[|]|]; try discriminate.
    injection He as <-. apply stray_of_view. reflexivity.
  - unfold timer_event in He.
    destruct (timers s !! i0) as [[|]|]; try discriminate.
    injection He as <-. apply stray_of_view. reflexivity.
Qed.

Lemma run_keeps_strays (es : list event) (s s' : store) (i : nat) :
  run es s = Some s' ->
  (stray_timer i s -> stray_timer i s')
  /\ (stray_processor i s -> stray_processor i s')
  /\ (stray_stream i s -> stray_stream i s').
Proof.
  revert s. induction es as [|e es IH]; intros s H; cbn [run] in H.
  - injection H as <-. tauto.
  - destruct (step e s) as [s1|] eqn:E; [|discriminate]. cbn in H.
    pose proof (step_keeps_strays e s s1 i E).
    pose proof (IH s1 H). tauto.
Qed.

(** A start that succeeds while an earlier recording is running turns
    the earlier interval, processor and stream into strays. *)
Lemma start_makes_strays (b : backend) (s s' : store) :
  startRecording_resume b s = Returned s' ->
  (forall t, timer s = Some t -> timers s !! t = Some true ->
             stray_timer t s')
  /\ (forall p, processor s = Some p -> input s = Some p ->
                graphs s !! p = Some true -> stray_processor p s')
  /\ (forall m, micStream s = Some m -> streams s !! m = Some true ->
                stray_stream m s').
Proof.
  unfold startRecording_resume, stray_timer, stray_processor, stray_stream.
  destruct (microphone b); [|discriminate]. cbn [negb].
  destruct (audio_context b); [|discriminate]. cbn [negb].
  intros [= <-]. pcm_fields.
  repeat split;
    match goal with
    | Hl : _ !! _ = Some true |- _ =>
        pose proof (lookup_lt_Some _ _ _ Hl)
    end;
    rewrite ?lookup_app_l by assumption;
    try assumption; try (intros [= Heq]; lia).
Qed.

End Strays.

(** Starting a recording while another one is running leaks the earlier
    one: its interval, its processor and its microphone stream are no
    longer referred to by any variable, and no handler of the recorder
    ever stops them.  Whatever happens afterwards, the old interval keeps
    ticking, the old processor keeps appending its frames to the current
    buffers, and the old stream stays live. *)
Theorem second_start_leaks (b : Pcm.backend) (s s' s'' : Pcm.store)
    (es : list Pcm.event) (t p m : nat) :
  Pcm.timer s = Some t -> Pcm.timers s !! t = Some true ->
  Pcm.processor s = Some p -> Pcm.input s = Some p ->
  Pcm.graphs s !! p = Some true ->
  Pcm.micStream s = Some m -> Pcm.streams s !! m = Some true ->
  Pcm.startRecording_resume b s = Pcm.Returned s' ->
  Pcm.run es s' = Some s'' ->
  Pcm.timer_event t s'' = Some (Pcm.ontick s'')
  /\ (forall data,
      Pcm.audio_event p data s'' = Some (Pcm.onaudioprocess data s''))
  /\ Pcm.streams s'' !! m = Some true
  /\ Pcm.timer s'' <> Some t /\ Pcm.processor s'' <> Some p
  /\ Pcm.micStream s'' <> Some m.
Proof.
  intros Ht Hlt Hp Hi Hlp Hm Hlm Hstart Hrun.
  destruct (start_makes_strays b s s' Hstart) as (H1 & H2 & H3).
  specialize (H1 t Ht Hlt). specialize (H2 p Hp Hi Hlp).
  specialize (H3 m Hm Hlm).
  destruct (run_keeps_strays es s' s'' t Hrun) as (K1 & _ & _).
  destruct (run_keeps_strays es s' s'' p Hrun) as (_ & K2 & _).
  destruct (run_keeps_strays es s' s'' m Hrun) as (_ & _ & K3).
  destruct (K1 H1) as [T1 T2]. destruct (K2 H2) as (P1 & P2 & _).
  destruct (K3 H3) as [S1 S2].
  unfold Pcm.timer_event, Pcm.audio_event. rewrite T1, P1.
  repeat split; assumption.
Qed.

Lemma second_start_leaks_witness :
  let ok := Pcm.Backend true true in
  let s := Pcm.after (Pcm.startRecording_resume ok Pcm.initial) in
  let s' := Pcm.after (Pcm.startRecording_resume ok s) in
  let s'' := Pcm.discardRecording (Pcm.after (Pcm.stopRecording s')) in
  Pcm.timer_event 0 s'' = Some (Pcm.ontick s'')
  /\ (forall data,
      Pcm.audio_event 0 data s'' = Some (Pcm.onaudioprocess data s''))
  /\ Pcm.streams s'' !! 0%nat = Some true
  /\ Pcm.timer s'' <> Some 0%nat /\ Pcm.processor s'' <> Some 0%nat
  /\ Pcm.micStream s'' <> Some 0%nat.
Proof.
  intros ok s s' s''.
  apply (second_start_leaks ok s s' s'' [Pcm.Stop; Pcm.Discard] 0 0 0);
    vm_compute; reflexivity.
Defined.

Section Uploads.

Import Pcm.

Lemma sound_of_view (s s' : store) :
  data_view s' = data_view s -> sound s -> sound s'.
Proof.
  unfold data_view, sound, lockstep. intros [= -> -> ->]. tauto.
Qed.

Lemma stop_data_view (s : store) :
  data_view (after (stopRecording s)) = data_view s.
Proof.
  unfold stopRecording.
  destruct (timer s) as [t|]; pcm_fields;
    (destruct (processor s) as [p|]; pcm_fields;
     [destruct (input s) as [n|]; pcm_fields;
      [destruct (micStream s) as [m|]; pcm_fields;
       [destruct (Wav.createWavBlob (wavChunks s) 16000); pcm_fields|]|]|]);
    reflexivity.
Qed.

Lemma sound_cleared (s s' : store) :
  pcmChunks s' = [] -> wavChunks s' = [] -> requests s' = requests s ->
  sound s -> sound s'.
Proof.
  unfold sound, lockstep. intros -> -> ->. intros (_ & _ & H).
  split; [reflexivity|]. split; [constructor|exact H].
Qed.

(** What [sendVoice] posts when the buffer is not empty. *)
Lemma sendVoice_posts (s : store) :
  pcmChunks s <> [] ->
  exists s1 : store,
    sendVoice s = AwaitingResponse s1
    /\ pcmChunks s1 = pcmChunks s /\ wavChunks s1 = wavChunks s
    /\ requests s1
       = requests s
         ++ [Request (Base64.encode_units
                        (Js.fromCharCode (concat (pcmChunks s)))) 16000].
Proof.
  intros Hne. unfold sendVoice.
  destruct (pcmChunks s) as [|c cs] eqn:E; [congruence|].
  pcm_fields. rewrite E, merge_concat. cbn [mbind option_bind].
  rewrite uint8ToBase64_spec.
  eexists. split; [reflexivity|]. pcm_fields. rewrite E. repeat split.
Qed.

Lemma sound_step (e : event) (s s' : store) :
  step e s = Some s' -> sound s -> sound s'.
Proof.
  destruct e; cbn [step]; intros He Hs.
  - injection He as <-. revert Hs. apply sound_of_view.
    unfold handleSelection. destruct (bool_decide _); reflexivity.
  - injection He as <-. revert Hs. apply sound_of_view.
    unfold startRecording. destruct (bool_decide _); reflexivity.
  - injection He as <-. unfold startRecording_resume.
    destruct (microphone b); [|exact Hs]. cbn [negb].
    destruct (audio_context b); cbn [negb].
    + revert Hs. apply sound_cleared; reflexivity.
    + revert Hs. apply sound_of_view. reflexivity.
  - injection He as <-. revert Hs. apply sound_of_view, stop_data_view.
  - injection He as <-. revert Hs. apply sound_cleared; reflexivity.
  - injection He as <-.
    destruct (pcmChunks s) as [|c cs] eqn:E.
    + unfold sendVoice. rewrite E. revert Hs. apply sound_of_view.
      unfold data_view. pcm_fields. now rewrite E.
    + destruct (sendVoice_posts s) as (s1 & -> & Hp & Hw & Hq);
        [congruence|].
      destruct Hs as (Hl & Hr & Hg). unfold sound, lockstep.
      rewrite Hp, Hw, Hq. split; [exact Hl|]. split; [exact Hr|].
      apply Forall_app. split; [exact Hg|].
      apply List.Forall_cons; [|apply List.Forall_nil].
      exists (concat (wavChunks s)). split.
      * now apply Forall_concat.
      * split; [reflexivity|]. cbn [audio].
        rewrite decode_encode_units. f_equal.
        unfold lockstep in Hl. rewrite Hl.
        apply buffer_bytes_sample_bytes.
  - injection He as <-. revert Hs. unfold sendVoice_resume.
    destruct r as [|t rp]; [apply sound_cleared; reflexivity|].
    destruct (Js.truthy (field t)); apply sound_cleared; reflexivity.
  - unfold audio_event in He.
    destruct (graphs s !! node) as [[|]|]; try discriminate.
    injection He as <-. destruct Hs as (Hl & Hr & Hg).
    unfold sound, lockstep in *. pcm_fields.
    split; [rewrite Hl, map_app; reflexivity|]. split; [|exact Hg].
    apply Forall_app. split; [exact Hr|].
    apply List.Forall_cons; [|apply List.Forall_nil].
    apply List.Forall_map, List.Forall_forall. intros x _.
    apply to_pcm16_stored.
  - unfold timer_event in He.
    destruct (timers s !! i) as [[|]|]; try discriminate.
    injection He as <-. revert Hs. apply sound_of_view. reflexivity.
Qed.

Lemma sound_reachable (s : store) : reachable s -> sound s.
Proof.
  intros [es Hes].
  assert (Hinit : sound initial)
    by (split; [reflexivity|split; constructor]).
  revert Hes Hinit. generalize initial.
  induction es as [|e es IH]; intros s0 Hes H0; cbn [run] in Hes.
  - now injection Hes as <-.
  - destruct (step e s0) as [s1|] eqn:E; [|discriminate].
    eapply IH; [exact Hes|]. eapply sound_step; eauto.
Qed.

End Uploads.

(** Whatever the recorder has been through, every request it has posted
    to [/speech-chat] declares 16000 Hz and carries, Base64-encoded, a
    whole number of 16-bit samples, low byte first, each within
    [-32767, 32767]: never a torn sample, never -32768. *)
Theorem uploads_carry_whole_samples (s : Pcm.store) (req : Pcm.request) :
  Pcm.reachable s -> In req (Pcm.requests s) ->
  Pcm.sampleRate req = 16000
  /\ exists samples : list Z,
       Forall Pcm.stored_sample samples
       /\ Base64.decode (Pcm.audio req)
          = Some (concat (map Wav.le16 samples))
       /\ (forall bytes, Base64.decode (Pcm.audio req) = Some bytes ->
           length bytes = (2 * length samples)%nat
           /\ Wav.decode_i16le bytes = samples).
Proof.
  intros Hr Hin. apply sound_reachable in Hr. destruct Hr as (_ & _ & Hg).
  rewrite List.Forall_forall in Hg.
  destruct (Hg req Hin) as (samples & Hs & Hrate & Hdec).
  split; [exact Hrate|]. exists samples. split; [exact Hs|].
  split; [exact Hdec|]. intros bytes Hb. rewrite Hdec in Hb.
  injection Hb as <-. split.
  - clear. induction samples as [|v l IH]; [reflexivity|].
    cbn [map concat Wav.le16 app length]. rewrite IH. lia.
  - apply decode_sample_bytes.
    eapply Forall_impl; [exact Hs|]. unfold Pcm.stored_sample.
    simpl. intros; lia.
Qed.

Lemma uploads_carry_whole_samples_witness :
  let es := [Pcm.Select (Js.lit "ask"); Pcm.StartCall;
             Pcm.StartResume (Pcm.Backend true true);
             Pcm.Audio 0 [Num.Fin (1 # 2); Num.Fin (-1 # 1)];
             Pcm.Stop; Pcm.SendCall] in
  let s := default Pcm.initial (Pcm.run es Pcm.initial) in
  exists req : Pcm.request,
    Pcm.requests s = [req]
    /\ Pcm.sampleRate req = 16000
    /\ exists samples : list Z,
         Forall Pcm.stored_sample samples
         /\ Base64.decode (Pcm.audio req)
            = Some (concat (map Wav.le16 samples)).
Proof.
  intros es s.
  assert (Hreq : exists req, Pcm.requests s = [req])
    by (subst s es; vm_compute; eexists; reflexivity).
  destruct Hreq as [req Hreq]. exists req. split; [exact Hreq|].
  assert (Hr : Pcm.reachable s)
    by (exists es; subst s es; vm_compute; reflexivity).
  assert (Hin : In req (Pcm.requests s)) by (rewrite Hreq; now left).
  destruct (uploads_carry_whole_samples s req Hr Hin)
    as (Hrate & samples & Hs & Hdec & _).
  split; [exact Hrate|]. exists samples. split; [exact Hs|exact Hdec].
Defined.

(** [sendVoice] does not guard against being called again.  Once a send
    has completed, or the recording was discarded, a further call posts
    nothing.  But while the answer is still awaited the buffer is still
    there, and a second call posts the same audio a second time. *)
Theorem send_reentrancy :
  (forall (r : Pcm.response) (s : Pcm.store),
      Pcm.sendVoice (Pcm.sendVoice_resume r s)
      = Pcm.NothingToSend
          (Pcm.addMessage
             (Page.warning_sign ++ Js.lit " No audio recorded.") Page.Bot
             (Pcm.sendVoice_resume r s)))
  /\ (forall s : Pcm.store,
      Pcm.sendVoice (Pcm.discardRecording s)
      = Pcm.NothingToSend
          (Pcm.addMessage
             (Page.warning_sign ++ Js.lit " No audio recorded.") Page.Bot
             (Pcm.discardRecording s)))
  /\ (forall s : Pcm.store,
      Pcm.pcmChunks s <> [] ->
      exists (s1 s2 : Pcm.store) (req : Pcm.request),
        Pcm.sendVoice s = Pcm.AwaitingResponse s1
        /\ Pcm.sendVoice s1 = Pcm.AwaitingResponse s2
        /\ Pcm.requests s2 = Pcm.requests s ++ [req; req]).
Proof.
  split; [|split].
  - intros r s. unfold Pcm.sendVoice at 1.
    replace (Pcm.pcmChunks (Pcm.sendVoice_resume r s)) with (@nil (list byte));
      [reflexivity|].
    unfold Pcm.sendVoice_resume. destruct r as [|t rp]; [reflexivity|].
    destruct (Js.truthy (Pcm.field t)); reflexivity.
  - intros s. reflexivity.
  - intros s Hne.
    destruct (sendVoice_posts s Hne) as (s1 & H1 & Hp & Hw & Hq).
    assert (Hne1 : Pcm.pcmChunks s1 <> []) by now rewrite Hp.
    destruct (sendVoice_posts s1 Hne1) as (s2 & H2 & _ & _ & Hq2).
    exists s1, s2. eexists. split; [exact H1|]. split; [exact H2|].
    rewrite Hq2, Hq, Hp, <- app_assoc. reflexivity.
Qed.

Lemma send_reentrancy_witness :
  let s := Pcm.record_frames [[Num.Fin (1 # 2)]] Pcm.initial in
  exists (s1 s2 : Pcm.store) (req : Pcm.request),
    Pcm.sendVoice s = Pcm.AwaitingResponse s1
    /\ Pcm.sendVoice s1 = Pcm.AwaitingResponse s2
    /\ Pcm.requests s2 = Pcm.requests s ++ [req; req].
Proof.
  intros s. apply send_reentrancy. discriminate.
Defined.

(** ** Trimming *)

Section Trim.

Import Js.

Lemma trim_start_idem (s : jsstring) : trim_start (trim_start s) = trim_start s.
Proof.
  induction s as [|c s IH]; [reflexivity|].
  cbn [trim_start]. destruct (is_white_space c) eqn:E; [exact IH|].
  cbn [trim_start]. now rewrite E.
Qed.

Lemma trim_start_fixed (c : N) (s : jsstring) :
  is_white_space c = false -> trim_start (c :: s) = c :: s.
Proof. intros E. cbn [trim_start]. now rewrite E. Qed.

(** Trimming the front of a text that ends in a visible character keeps
    that character at the end. *)
Lemma trim_start_snoc (s : jsstring) (c : N) :
  is_white_space c = false ->
  exists s' : jsstring, trim_start (s ++ [c]) = s' ++ [c].
Proof.
  intros E. induction s as [|d s IH].
  - exists []. cbn [app trim_start]. now rewrite E.
  - cbn [app trim_start]. destruct (is_white_space d).
    + exact IH.
    + now exists (d :: s).
Qed.

Lemma trim_end_head (c : N) (s : jsstring) :
  is_white_space c = false ->
  exists s' : jsstring, trim_end (c :: s) = c :: s'.
Proof.
  intros E. unfold trim_end. cbn [rev].
  destruct (trim_start_snoc (rev s) c E) as [s' ->].
  exists (rev s'). rewrite rev_app_distr. reflexivity.
Qed.

Lemma trim_start_head (s : jsstring) :
  trim_start s = []
  \/ exists c s', trim_start s = c :: s' /\ is_white_space c = false.
Proof.
  induction s as [|c s IH]; [now left|].
  cbn [trim_start]. destruct (is_white_space c) eqn:E; [exact IH|].
  right. now exists c, s.
Qed.

Lemma trim_idem (s : jsstring) : trim (trim s) = trim s.
Proof.
  unfold trim.
  assert (Hfront : trim_start (trim_end (trim_start s))
                   = trim_end (trim_start s)).
  { destruct (trim_start_head s) as [->|(c & s' & -> & E)]; [reflexivity|].
    destruct (trim_end_head c s' E) as [s'' ->].
    now apply trim_start_fixed. }
  rewrite Hfront. unfold trim_end. rewrite rev_involutive.
  now rewrite trim_start_idem.
Qed.

End Trim.

(** ** The live variant: sessions *)

Section Sessions.

Import LiveToken.

Lemma assign_assign {A} (v w : A) (el : option A) :
  assign v (assign w el) = assign v el.
Proof. now destruct el. Qed.

Lemma truthy_nonempty (t : jsstring) : Js.truthy t = true -> t <> [].
Proof. destruct t; [discriminate|discriminate]. Qed.

Lemma tokens_alter (f : recognizer_object -> recognizer_object) (i : nat)
    (l : list recognizer_object) :
  (forall r, r_session (f r) = r_session r) ->
  map r_session (alter f i l) = map r_session l.
Proof.
  intros Hf. revert i. induction l as [|r l IH]; intros [|i];
    try reflexivity.
  - cbn. now rewrite Hf.
  - cbn. f_equal. apply IH.
Qed.

Lemma tokens_torn_down (s : store) :
  map r_session (torn_down s) = tokens s.
Proof.
  unfold torn_down, tokens. destruct (recognizer s); [|reflexivity].
  now apply tokens_alter.
Qed.

(** A handler that leaves the session variables alone. *)
Lemma wf_same_view (s s' : store) :
  session_view s' = session_view s -> well_formed s -> well_formed s'.
Proof.
  unfold session_view, well_formed, tokens.
  intros [= -> -> -> -> ->]. tauto.
Qed.

(** A handler that ends the session: the counter moves on, nothing is
    recording, the recognizers keep their tokens. *)
Lemma wf_session_ended (s s' : store) :
  isRecording s' = false ->
  speechSessionId s' = (speechSessionId s + 1)%N ->
  tokens s' = tokens s ->
  well_formed s -> well_formed s'.
Proof.
  unfold well_formed. intros Hrec Hid Htok (H1 & _ & _).
  rewrite Hrec, Hid, Htok. split; [|split].
  - eapply Forall_impl; [exact H1|]. simpl. intros; lia.
  - intros i Hi. rewrite List.Forall_forall in H1.
    apply list_elem_of_lookup_2, list_elem_of_In, H1 in Hi. lia.
  - discriminate.
Qed.

Lemma wf_stopped (s s' : store) :
  isRecording s' = false ->
  speechSessionId s' = speechSessionId s ->
  tokens s' = tokens s ->
  well_formed s -> well_formed s'.
Proof.
  unfold well_formed. intros Hrec Hid Htok (H1 & H2 & _).
  rewrite Hrec, Hid, Htok. split; [exact H1|]. split; [exact H2|].
  discriminate.
Qed.

Lemma wf_started (s : store) :
  isRecording s = false ->
  selectedMode s = Some (Js.lit "ask") ->
  SpeechRecognition s = true ->
  well_formed s -> well_formed (startRecording s).
Proof.
  intros Hrec Hmode Hsup (H1 & _ & _).
  rewrite startRecording_success by assumption.
  unfold well_formed, tokens. live_fields.
  rewrite map_app, tokens_torn_down. cbn [map r_session].
  split; [|split].
  - apply Forall_app. split.
    + eapply Forall_impl; [exact H1|]. simpl. intros; lia.
    + repeat constructor. lia.
  - intros i Hi. rewrite length_app. cbn [length].
    destruct (decide (i < length (tokens s))%nat) as [Hlt|Hge].
    + rewrite lookup_app_l in Hi by assumption.
      rewrite List.Forall_forall in H1.
      apply list_elem_of_lookup_2, list_elem_of_In, H1 in Hi. lia.
    + apply lookup_lt_Some in Hi. rewrite length_app in Hi.
      cbn [length] in Hi. lia.
  - intros _. split; [exact Hmode|].
    exists (length (recognizers s)). split; [reflexivity|].
    rewrite <- (length_torn_down s). now apply list_lookup_middle.
Qed.

Lemma stopRecording_view (s : store) :
  isRecording (stopRecording s) = false
  /\ speechSessionId (stopRecording s) = speechSessionId s
  /\ tokens (stopRecording s) = tokens s
  /\ requests (stopRecording s) = requests s
  /\ userInput (stopRecording s) = userInput s
  /\ recordingTime (stopRecording s) = recordingTime s
  /\ timers (stopRecording s) = timers s.
Proof.
  unfold stopRecording, tokens.
  destruct (isRecording s) eqn:E; cbn [negb]; [|now rewrite E].
  live_fields. destruct (recognizer s); live_fields; repeat split.
  now apply tokens_alter.
Qed.

Lemma reset_view (s : store) :
  isRecording (resetSpeechState s) = false
  /\ speechSessionId (resetSpeechState s) = (speechSessionId s + 1)%N
  /\ tokens (resetSpeechState s) = tokens s
  /\ requests (resetSpeechState s) = requests s
  /\ recognizer (resetSpeechState s) = None
  /\ userInput (resetSpeechState s) = assign [] (userInput s).
Proof.
  rewrite resetSpeechState_fields. unfold tokens at 1. live_fields.
  rewrite tokens_torn_down. repeat split.
Qed.

End Sessions.

Section Session_runs.

Import LiveToken.

Lemma posts_after_reset (value : jsstring) (s : store) :
  userInput s = Some value -> Js.truthy (Js.trim value) = true ->
  posts value s
    (set_requests
       (requests (addMessage (Js.trim value) User (resetSpeechState s))
        ++ [Js.trim value])
       (addMessage (Js.trim value) User (resetSpeechState s))).
Proof.
  intros Hv Ht. unfold posts.
  rewrite resetSpeechState_fields. live_fields. unfold tokens at 1.
  live_fields. rewrite tokens_torn_down, Hv.
  split; [reflexivity|]. split; [now apply truthy_nonempty|].
  repeat split.
Qed.

Lemma sendVoice_cases (s : store) :
  match sendVoice s with
  | NoInputField s' => s' = s /\ userInput s = None
  | NothingToSend s' =>
      s' = addMessage (warning_sign ++ Js.lit " No speech detected.") Bot s
  | AwaitingResponse s' => exists value, posts value s s'
  end.
Proof.
  unfold sendVoice. destruct (userInput s) as [value|] eqn:Hv; [|easy].
  destruct (Js.truthy (Js.trim value)) eqn:Ht; cbn [negb]; [|reflexivity].
  exists value. now apply posts_after_reset.
Qed.

Lemma sendChat_cases (s : store) :
  match sendChat s with
  | ChatIgnored s' => s' = s
  | ChatAwaiting s' =>
      selectedMode s = Some (Js.lit "ask") /\ exists value, posts value s s'
  end.
Proof.
  unfold sendChat. destruct (userInput s) as [value|] eqn:Hv; [|reflexivity].
  destruct (bool_decide (selectedMode s ≠ Some (Js.lit "ask"))) eqn:Hm;
    [reflexivity|].
  destruct (Js.truthy (Js.trim value)) eqn:Ht; cbn [negb]; [|reflexivity].
  split.
  - apply bool_decide_eq_false in Hm.
    destruct (decide (selectedMode s = Some (Js.lit "ask"))); tauto.
  - exists value. now apply posts_after_reset.
Qed.

Lemma handleSelection_view (mode : jsstring) (s : store) :
  isRecording (handleSelection mode s) = false
  /\ speechSessionId (handleSelection mode s) = (speechSessionId s + 1)%N
  /\ tokens (handleSelection mode s) = tokens s
  /\ requests (handleSelection mode s) = requests s
  /\ recognizer (handleSelection mode s) = None
  /\ userInput (handleSelection mode s) = assign [] (userInput s)
  /\ selectedMode (handleSelection mode s) = Some mode.
Proof.
  unfold handleSelection. rewrite resetSpeechState_fields.
  destruct (bool_decide (mode = Js.lit "ask")); unfold tokens at 1;
    live_fields; rewrite tokens_torn_down; repeat split.
Qed.

Lemma resetChat_view (s : store) :
  isRecording (resetChat s) = false
  /\ speechSessionId (resetChat s) = (speechSessionId s + 1)%N
  /\ tokens (resetChat s) = tokens s
  /\ requests (resetChat s) = requests s
  /\ recognizer (resetChat s) = None
  /\ userInput (resetChat s) = assign [] (userInput s)
  /\ selectedMode (resetChat s) = None.
Proof.
  unfold resetChat. rewrite resetSpeechState_fields.
  unfold tokens at 1. live_fields.
  unfold torn_down. live_fields. fold (torn_down s).
  rewrite tokens_torn_down. repeat split.
Qed.

Lemma startRecording_requests (s : store) :
  requests (startRecording s) = requests s.
Proof.
  unfold startRecording. destruct (isRecording s); [reflexivity|].
  destruct (bool_decide _); [reflexivity|].
  destruct (SpeechRecognition s) eqn:E; cbn [negb]; [|reflexivity].
  rewrite resetSpeechState_fields. live_fields.
  destruct (recordingBar s); reflexivity.
Qed.

Lemma wf_startRecording (s : store) :
  well_formed s -> well_formed (startRecording s).
Proof.
  intros Hwf.
  destruct (isRecording s) eqn:Hrec.
  { unfold startRecording. now rewrite Hrec. }
  destruct (decide (selectedMode s = Some (Js.lit "ask"))) as [Hmode|Hmode].
  - destruct (SpeechRecognition s) eqn:Hsup.
    + now apply wf_started.
    + unfold startRecording. rewrite Hrec, Hsup.
      rewrite bool_decide_eq_false_2 by tauto. cbn [negb].
      revert Hwf. apply wf_same_view. reflexivity.
  - unfold startRecording. rewrite Hrec.
    rewrite bool_decide_eq_true_2 by assumption.
    revert Hwf. apply wf_same_view. reflexivity.
Qed.

Lemma quiet_resume (reply : option jsstring) (s : store) :
  session_view (sendVoice_resume reply s) = session_view s
  /\ requests (sendVoice_resume reply s) = requests s.
Proof. destruct reply; split; reflexivity. Qed.

Lemma quiet_onresult (c : N) (ev : result_event) (s : store) :
  session_view (onresult c ev s) = session_view s
  /\ requests (onresult c ev s) = requests s.
Proof.
  unfold onresult. destruct (negb (isRecording s) || bool_decide _);
    split; reflexivity.
Qed.

Lemma quiet_ontick (i : nat) (t : interval) (s : store) :
  session_view (ontick i t s) = session_view s
  /\ requests (ontick i t s) = requests s.
Proof.
  unfold ontick. destruct (negb (isRecording s) || bool_decide _);
    split; reflexivity.
Qed.

Lemma step_invariants (e : event) (s s' : store) :
  step e s = Some s' ->
  (well_formed s -> well_formed s')
  /\ (Forall posted_text (requests s) -> Forall posted_text (requests s')).
Proof.
  assert (Hposted : forall value s1 s2,
             posts value s1 s2 ->
             (well_formed s1 -> well_formed s2)
             /\ (Forall posted_text (requests s1)
                 -> Forall posted_text (requests s2))).
  { intros value s1 s2 (Hv & Hne & Hrec & Hid & Htok & _ & _ & Hreq & _).
    split; [now apply wf_session_ended|].
    intros H. rewrite Hreq. apply Forall_app. split; [exact H|].
    repeat constructor; [exact Hne|apply trim_idem]. }
  destruct e; cbn [step]; intros He.
  - injection He as <-.
    destruct (handleSelection_view mode s) as (H1 & H2 & H3 & H4 & _).
    split; [now apply wf_session_ended|now rewrite H4].
  - injection He as <-.
    destruct (resetChat_view s) as (H1 & H2 & H3 & H4 & _).
    split; [now apply wf_session_ended|now rewrite H4].
  - injection He as <-.
    split; [apply wf_startRecording|now rewrite startRecording_requests].
  - injection He as <-.
    destruct (stopRecording_view s) as (H1 & H2 & H3 & H4 & _).
    split; [now apply wf_stopped|now rewrite H4].
  - injection He as <-.
    destruct (reset_view s) as (H1 & H2 & H3 & H4 & _).
    split; [now apply wf_session_ended|now rewrite H4].
  - injection He as <-. pose proof (sendChat_cases s) as H.
    destruct (sendChat s) as [s1|s1].
    + subst s1. tauto.
    + destruct H as [_ [value H]]. eapply Hposted; eauto.
  - injection He as <-. pose proof (sendVoice_cases s) as H.
    destruct (sendVoice s) as [s1|s1|s1].
    + destruct H as [-> _]. tauto.
    + subst s1. split; [apply wf_same_view; reflexivity|tauto].
    + destruct H as [value H]. eapply Hposted; eauto.
  - injection He as <-. destruct (quiet_resume reply s) as [Hv Hq].
    split; [now apply wf_same_view|now rewrite Hq].
  - injection He as <-. split; [apply wf_same_view; reflexivity|tauto].
  - unfold timer_event in He.
    destruct (timers s !! i) as [t|]; [|discriminate]. cbn in He.
    destruct (t_active t); [|discriminate]. injection He as <-.
    destruct (quiet_ontick i t s) as [Hv Hq].
    split; [now apply wf_same_view|now rewrite Hq].
  - unfold result_event_of in He.
    destruct (recognizers s !! i) as [r|]; [|discriminate]. cbn in He.
    injection He as <-. destruct (quiet_onresult (r_session r) ev s) as [Hv Hq].
    split; [now apply wf_same_view|now rewrite Hq].
  - unfold error_event_of in He.
    destruct (recognizers s !! i) as [r|]; [|discriminate]. cbn in He.
    injection He as <-. unfold onerror.
    destruct (reset_view s) as (H1 & H2 & H3 & H4 & _).
    split; [now apply wf_session_ended|now rewrite H4].
Qed.

Lemma reachable_invariants (s : store) :
  reachable s -> well_formed s /\ Forall posted_text (requests s).
Proof.
  intros (s0 & es & (Hr & Hrec & Hrs & _ & Hq) & Hrun).
  assert (H0 : well_formed s0 /\ Forall posted_text (requests s0)).
  { unfold well_formed, tokens. rewrite Hrs, Hrec, Hq.
    repeat split; try constructor; try discriminate. }
  clear Hr Hrec Hrs Hq. revert s0 Hrun H0.
  induction es as [|e es IH]; intros s0 Hrun H0; cbn [run] in Hrun.
  - now injection Hrun as <-.
  - destruct (step e s0) as [s1|] eqn:E; [|discriminate]. cbn in Hrun.
    apply (IH s1 Hrun). pose proof (step_invariants e s0 s1 E). tauto.
Qed.

End Session_runs.

(** In every state the live widget can reach, at most one recognizer
    holds the current session token, and it is the one in use: while a
    recording is running the chat mode is on and the current recognizer
    is started with the current token, and a result delivered by any
    other recognizer, however late, changes nothing. *)
Theorem one_live_recognizer (s : LiveToken.store) :
  LiveToken.reachable s ->
  (forall i j ri rj,
      LiveToken.recognizers s !! i = Some ri ->
      LiveToken.recognizers s !! j = Some rj ->
      LiveToken.r_session ri = LiveToken.speechSessionId s ->
      LiveToken.r_session rj = LiveToken.speechSessionId s -> i = j)
  /\ (LiveToken.isRecording s = true ->
      LiveToken.selectedMode s = Some (Js.lit "ask")
      /\ exists i, LiveToken.recognizer s = Some i
           /\ LiveToken.recognizers s !! i
              = Some (LiveToken.RecognizerObject
                        (LiveToken.speechSessionId s) Page.Started))
  /\ (forall i ev s',
      LiveToken.recognizer s <> Some i ->
      LiveToken.result_event_of i ev s = Some s' -> s' = s).
Proof.
  intros Hr. apply reachable_invariants in Hr as [(H1 & H2 & H3) _].
  assert (Hlast : forall i r,
             LiveToken.recognizers s !! i = Some r ->
             LiveToken.r_session r = LiveToken.speechSessionId s ->
             S i = length (LiveToken.recognizers s)).
  { intros i r Hi Hs.
    rewrite <- (length_map LiveToken.r_session). apply H2.
    unfold LiveToken.tokens.
    rewrite <- Hs. change (map LiveToken.r_session (LiveToken.recognizers s))
      with (LiveToken.r_session <$> LiveToken.recognizers s).
    now rewrite list_lookup_fmap, Hi. }
  split; [|split; [exact H3|]].
  - intros i j ri rj Hi Hj Hsi Hsj.
    pose proof (Hlast i ri Hi Hsi). pose proof (Hlast j rj Hj Hsj). lia.
  - intros i ev s' Hne He. unfold LiveToken.result_event_of in He.
    destruct (LiveToken.recognizers s !! i) as [r|] eqn:Hi; [|discriminate].
    cbn in He. injection He as <-. unfold LiveToken.onresult.
    destruct (LiveToken.isRecording s) eqn:Hrec; [|reflexivity].
    destruct (H3 eq_refl) as (_ & i0 & Hcur & Hi0).
    rewrite bool_decide_eq_true_2; [reflexivity|].
    intros Hs. pose proof (Hlast i r Hi Hs).
    pose proof (Hlast i0 _ Hi0 eq_refl). congruence.
Qed.

Lemma one_live_recognizer_witness :
  let es := [LiveToken.Home; LiveToken.Select (Js.lit "ask"); LiveToken.Mic;
             LiveToken.StopButton; LiveToken.Mic] in
  let s := default (LiveToken.initial true)
             (LiveToken.run es (LiveToken.initial true)) in
  let ev := Page.ResultEvent 0 [Page.Result (Js.lit "late") false] in
  LiveToken.recognizer s = Some 1%nat
  /\ LiveToken.result_event_of 0 ev s = Some s.
Proof.
  intros es s ev. split; [subst s es; vm_compute; reflexivity|].
  assert (Hr : LiveToken.reachable s).
  { exists (LiveToken.initial true), es. split.
    - repeat split.
    - subst s es. vm_compute. reflexivity. }
  destruct (one_live_recognizer s Hr) as (_ & _ & H).
  assert (He : exists s', LiveToken.result_event_of 0 ev s = Some s')
    by (subst s es ev; vm_compute; eexists; reflexivity).
  destruct He as [s' He]. rewrite He. f_equal.
  apply (H 0%nat ev s'); [|exact He].
  subst s es. vm_compute. discriminate.
Defined.

(** Every message the live widget has posted to [/ask], from the text
    field or from speech, is non-empty and has no white space at either
    end. *)
Theorem posted_messages_trimmed (s : LiveToken.store) (r : jsstring) :
  LiveToken.reachable s -> In r (LiveToken.requests s) ->
  r <> [] /\ Js.trim r = r.
Proof.
  intros Hr Hin. apply reachable_invariants in Hr as [_ H].
  rewrite List.Forall_forall in H. exact (H r Hin).
Qed.

Lemma posted_messages_trimmed_witness :
  let es := [LiveToken.Select (Js.lit "ask");
             LiveToken.Edit (Js.lit "  hi there ");
             LiveToken.SendChatCall] in
  let s := default (LiveToken.initial true)
             (LiveToken.run es (LiveToken.initial true)) in
  LiveToken.requests s = [Js.lit "hi there"]
  /\ Js.lit "hi there" <> [] /\ Js.trim (Js.lit "hi there") = Js.lit "hi there".
Proof.
  intros es s.
  assert (Hq : LiveToken.requests s = [Js.lit "hi there"])
    by (subst s es; vm_compute; reflexivity).
  split; [exact Hq|].
  apply (posted_messages_trimmed s).
  - exists (LiveToken.initial true), es. split.
    + repeat split.
    + subst s es. vm_compute. reflexivity.
  - rewrite Hq. now left.
Defined.

(** Choosing a mode, going home, discarding, a recognizer error, and
    posting from the text field or from speech all end the session the
    same way: nothing is recording, the session counter has moved on by
    one, no recognizer is referred to, the input field is empty, and no
    result event, whichever token it holds, changes the store. *)
Theorem session_ending_paths (mode : jsstring) (s s' : LiveToken.store) :
  s' = LiveToken.handleSelection mode s \/ s' = LiveToken.resetChat s
  \/ s' = LiveToken.resetSpeechState s \/ s' = LiveToken.onerror s
  \/ LiveToken.sendChat s = LiveToken.ChatAwaiting s'
  \/ LiveToken.sendVoice s = LiveToken.AwaitingResponse s' ->
  LiveToken.isRecording s' = false
  /\ LiveToken.speechSessionId s' = (LiveToken.speechSessionId s + 1)%N
  /\ LiveToken.recognizer s' = None
  /\ LiveToken.userInput s' = LiveToken.assign [] (LiveToken.userInput s)
  /\ (forall c ev, LiveToken.onresult c ev s' = s').
Proof.
  intros H.
  enough (LiveToken.isRecording s' = false
          /\ LiveToken.speechSessionId s'
             = (LiveToken.speechSessionId s + 1)%N
          /\ LiveToken.recognizer s' = None
          /\ LiveToken.userInput s'
             = LiveToken.assign [] (LiveToken.userInput s))
    as (H1 & H2 & H3 & H4).
  { repeat split; try assumption. intros c ev.
    unfold LiveToken.onresult. now rewrite H1. }
  destruct H as [->|[->|[->|[->|[H|H]]]]].
  - destruct (handleSelection_view mode s) as (? & ? & _ & _ & ? & ? & _).
    auto.
  - destruct (resetChat_view s) as (? & ? & _ & _ & ? & ? & _). auto.
  - destruct (reset_view s) as (? & ? & _ & _ & ? & ?). auto.
  - destruct (reset_view s) as (? & ? & _ & _ & ? & ?). auto.
  - pose proof (sendChat_cases s) as Hc. rewrite H in Hc.
    destruct Hc as (_ & value & Hv & _ & ? & ? & _ & ? & Hu & _).
    rewrite Hv, Hu. auto.
  - pose proof (sendVoice_cases s) as Hc. rewrite H in Hc.
    destruct Hc as (value & Hv & _ & ? & ? & _ & ? & Hu & _).
    rewrite Hv, Hu. auto.
Qed.

Lemma session_ending_paths_witness :
  let s := LiveToken.startRecording
             (LiveToken.handleSelection (Js.lit "ask")
                (LiveToken.initial true)) in
  LiveToken.isRecording (LiveToken.resetChat s) = false
  /\ LiveToken.speechSessionId (LiveToken.resetChat s)
     = (LiveToken.speechSessionId s + 1)%N
  /\ LiveToken.recognizer (LiveToken.resetChat s) = None
  /\ LiveToken.userInput (LiveToken.resetChat s)
     = LiveToken.assign [] (LiveToken.userInput s)
  /\ (forall c ev,
      LiveToken.onresult c ev (LiveToken.resetChat s)
      = LiveToken.resetChat s).
Proof.
  intros s.
  apply (session_ending_paths [] s (LiveToken.resetChat s)).
  right. left. reflexivity.
Defined.

(** Once the live widget is not recording (after [stopRecording], for
    one), results that still arrive change nothing, whatever token they
    hold, and each interval still active cancels itself at its next
    tick, without touching the field or the displayed time, and never
    ticks again. *)
Theorem stopped_session_is_quiet (s : LiveToken.store) :
  LiveToken.isRecording s = false ->
  (forall c ev, LiveToken.onresult c ev s = s)
  /\ (forall i t,
      LiveToken.timers s !! i = Some t -> LiveToken.t_active t = true ->
      exists s',
        LiveToken.timer_event i s = Some s'
        /\ LiveToken.timer_event i s' = None
        /\ LiveToken.userInput s' = LiveToken.userInput s
        /\ LiveToken.recordingTime s' = LiveToken.recordingTime s
        /\ LiveToken.session_view s' = LiveToken.session_view s)
  /\ (forall s0, LiveToken.isRecording (LiveToken.stopRecording s0) = false).
Proof.
  intros Hrec. split; [|split].
  - intros c ev. unfold LiveToken.onresult. now rewrite Hrec.
  - intros i t Hi Ha. unfold LiveToken.timer_event at 1.
    rewrite Hi. cbn [mbind option_bind]. rewrite Ha.
    unfold LiveToken.ontick. rewrite Hrec. cbn [negb orb].
    eexists. split; [reflexivity|].
    unfold LiveToken.timer_event. live_fields.
    rewrite list_lookup_insert_eq by (eapply lookup_lt_Some; eauto).
    cbn [mbind option_bind]. live_fields. repeat split.
  - intros s0. apply stopRecording_view.
Qed.

Lemma stopped_session_is_quiet_witness :
  let s := LiveToken.stopRecording
             (LiveToken.startRecording
                (LiveToken.handleSelection (Js.lit "ask")
                   (LiveToken.initial true))) in
  exists s',
    LiveToken.timer_event 0 s = Some s'
    /\ LiveToken.timer_event 0 s' = None
    /\ LiveToken.userInput s' = LiveToken.userInput s
    /\ LiveToken.recordingTime s' = LiveToken.recordingTime s
    /\ LiveToken.session_view s' = LiveToken.session_view s.
Proof.
  intros s.
  assert (Hrec : LiveToken.isRecording s = false)
    by (vm_compute; reflexivity).
  destruct (stopped_session_is_quiet s Hrec) as (_ & H & _).
  apply (H 0%nat (LiveToken.Interval 2 0 true)); vm_compute; reflexivity.
Defined.

Section Overwrite.

Import LiveToken.

Lemma joined_fold (entries : list result) (text : jsstring) :
  fold_left (fun text r => text ++ transcript r) entries text
  = text ++ concat (map transcript entries).
Proof.
  revert text. induction entries as [|r entries IH]; intros text.
  - simpl. now rewrite app_nil_r.
  - cbn [fold_left map concat]. rewrite IH. now rewrite <- app_assoc.
Qed.

End Overwrite.

(** In the live variant with the session counter, a result event that
    passes the gate puts into the field the texts of all entries from
    [resultIndex] on, final or not, joined and trimmed, and nothing of
    what the field held before: of two events in a row only the second
    one shows. *)
Theorem result_overwrites_field (s : LiveToken.store)
    (ev1 ev2 : Page.result_event) :
  LiveToken.isRecording s = true ->
  let c := LiveToken.speechSessionId s in
  LiveToken.userInput (LiveToken.onresult c ev1 s)
  = LiveToken.assign
      (Js.trim (concat (map Page.transcript
                          (drop (Page.resultIndex ev1) (Page.results ev1)))))
      (LiveToken.userInput s)
  /\ LiveToken.onresult c ev2 (LiveToken.onresult c ev1 s)
     = LiveToken.onresult c ev2 s.
Proof.
  intros Hrec c. subst c.
  assert (Hgate : forall ev,
             LiveToken.onresult (LiveToken.speechSessionId s) ev s
             = LiveToken.set_userInput
                 (LiveToken.assign (Js.trim (LiveToken.joined ev))
                    (LiveToken.userInput s)) s).
  { intros ev. unfold LiveToken.onresult. rewrite Hrec.
    rewrite bool_decide_eq_false_2 by (intros H; now apply H).
    reflexivity. }
  split.
  - rewrite Hgate. live_fields. unfold LiveToken.joined.
    now rewrite joined_fold.
  - rewrite !Hgate. unfold LiveToken.onresult. live_fields. rewrite Hrec.
    rewrite bool_decide_eq_false_2 by (intros H; now apply H).
    cbn [negb orb].
    apply store_ext; live_fields; try reflexivity.
    apply assign_assign.
Qed.

Lemma result_overwrites_field_witness :
  let s := LiveToken.startRecording
             (LiveToken.handleSelection (Js.lit "ask")
                (LiveToken.initial true)) in
  let ev1 := Page.ResultEvent 0 [Page.Result (Js.lit "hello ") true] in
  let ev2 := Page.ResultEvent 1 [Page.Result (Js.lit "hello ") true;
                                 Page.Result (Js.lit "wor") false] in
  LiveToken.userInput
    (LiveToken.onresult 2 ev2 (LiveToken.onresult 2 ev1 s))
  = Some (Js.lit "wor").
Proof.
  intros s ev1 ev2.
  assert (Hrec : LiveToken.isRecording s = true)
    by (vm_compute; reflexivity).
  destruct (result_overwrites_field s ev1 ev2 Hrec) as [_ H].
  change 2%N with (LiveToken.speechSessionId s) at 1 2.
  rewrite H. vm_compute. reflexivity.
Defined.

(** ** The first live revision: sending *)

(** In the first live revision [sendVoice] posts the trimmed content of
    the input field, whatever put it there.  Right after [stopRecording]
    of a recording with a committed text that is not blank, that is the
    committed text, trimmed.  But the result handler has no gate and
    stays attached after the stop: when a result event arrives between
    stop and send, the field becomes committed + new final texts +
    pending, trimmed, and this, partial guesses included, is what is
    posted.  When the answer (or the failure) arrives the transcript and
    the field are emptied and the preview is hidden; no further request
    is made. *)
Theorem simple_send_posts_field (s : LiveSimple.store) (value : jsstring) :
  LiveSimple.isRecording s = true ->
  LiveSimple.userInput s = Some value ->
  let s1 := LiveSimple.stopRecording s in
  (forall (s0 : LiveSimple.store) (v : jsstring),
      LiveSimple.userInput s0 = Some v -> Js.trim v <> [] ->
      exists s' : LiveSimple.store,
        LiveSimple.sendVoice s0 = LiveSimple.AwaitingResponse s'
        /\ LiveSimple.requests s' = LiveSimple.requests s0 ++ [Js.trim v])
  /\ (Js.trim (LiveSimple.liveTranscript s) <> [] ->
      exists s' : LiveSimple.store,
        LiveSimple.sendVoice s1 = LiveSimple.AwaitingResponse s'
        /\ LiveSimple.requests s'
           = LiveSimple.requests s ++ [Js.trim (LiveSimple.liveTranscript s)])
  /\ (forall ev : Page.result_event,
      let entries := drop (Page.resultIndex ev) (Page.results ev) in
      let shown :=
        Js.trim
          (LiveSimple.liveTranscript s ++ Spec.finals entries
           ++ concat (map Page.transcript
                        (filter (fun r => Page.isFinal r = false) entries))) in
      shown <> [] ->
      exists s' : LiveSimple.store,
        LiveSimple.sendVoice (LiveSimple.onresult ev s1)
        = LiveSimple.AwaitingResponse s'
        /\ LiveSimple.requests s' = LiveSimple.requests s ++ [shown])
  /\ (forall (reply : option jsstring) (s0 : LiveSimple.store),
      let s'' := LiveSimple.sendVoice_resume reply s0 in
      LiveSimple.liveTranscript s'' = []
      /\ LiveSimple.userInput s''
         = LiveSimple.assign [] (LiveSimple.userInput s0)
      /\ LiveSimple.voicePreview s''
         = LiveSimple.assign Page.DisplayNone (LiveSimple.voicePreview s0)
      /\ LiveSimple.requests s'' = LiveSimple.requests s0).
Proof.
  intros Hrec Hv s1.
  assert (Hpost : forall (s0 : LiveSimple.store) (v : jsstring),
             LiveSimple.userInput s0 = Some v -> Js.trim v <> [] ->
             exists s' : LiveSimple.store,
               LiveSimple.sendVoice s0 = LiveSimple.AwaitingResponse s'
               /\ LiveSimple.requests s'
                  = LiveSimple.requests s0 ++ [Js.trim v]).
  { intros s0 v Hu Hne. unfold LiveSimple.sendVoice. rewrite Hu.
    assert (Ht : Js.truthy (Js.trim v) = true)
      by (destruct (Js.trim v); [now elim Hne|reflexivity]).
    rewrite Ht. cbn [negb]. eexists. split; reflexivity. }
  assert (Hstop : LiveSimple.liveTranscript s1 = LiveSimple.liveTranscript s
                  /\ LiveSimple.requests s1 = LiveSimple.requests s
                  /\ LiveSimple.userInput s1
                     = Some (if Js.truthy (LiveSimple.liveTranscript s)
                             then Js.trim (LiveSimple.liveTranscript s)
                             else value)).
  { subst s1. unfold LiveSimple.stopRecording. rewrite Hrec. cbn [negb].
    simple_fields.
    destruct (LiveSimple.liveRecognizer s); simple_fields;
      destruct (Js.truthy (LiveSimple.liveTranscript s)); simple_fields;
      rewrite Hv; repeat split. }
  destruct Hstop as (Hlt & Hq & Hu).
  split; [exact Hpost|]. split; [|split].
  - intros Hne.
    assert (Ht : Js.truthy (LiveSimple.liveTranscript s) = true)
      by (destruct (LiveSimple.liveTranscript s); [now elim Hne|reflexivity]).
    rewrite Ht in Hu.
    destruct (Hpost s1 _ Hu) as (s' & Hs & Hr);
      [now rewrite trim_idem|].
    exists s'. split; [exact Hs|]. now rewrite Hr, Hq, trim_idem.
  - intros ev entries shown Hne.
    assert (Hfield : LiveSimple.userInput (LiveSimple.onresult ev s1)
                     = Some shown
                     /\ LiveSimple.requests (LiveSimple.onresult ev s1)
                        = LiveSimple.requests s).
    { unfold LiveSimple.onresult.
      pose proof (scan_spec ev) as Hscan. cbv zeta in Hscan.
      fold entries in Hscan. rewrite Hscan. simple_fields.
      rewrite Hu, Hlt, Hq. subst shown. rewrite <- app_assoc.
      split; reflexivity. }
    destruct Hfield as [Hf Hrq].
    destruct (Hpost _ _ Hf) as (s' & Hs & Hr).
    + subst shown. now rewrite trim_idem.
    + exists s'. split; [exact Hs|].
      rewrite Hr, Hrq. subst shown. now rewrite trim_idem.
  - intros reply s0. unfold LiveSimple.sendVoice_resume.
    destruct reply; unfold LiveSimple.discardRecording; simple_fields;
      repeat split.
Qed.

Lemma simple_send_posts_field_witness :
  let s := LiveSimple.onresult
             (Page.ResultEvent 0 [Page.Result (Js.lit "hello") true])
             (LiveSimple.startRecording LiveSimple.ready) in
  let late := Page.ResultEvent 1 [Page.Result (Js.lit "hello") true;
                                  Page.Result (Js.lit "wor") false] in
  (exists s' : LiveSimple.store,
      LiveSimple.sendVoice (LiveSimple.stopRecording s)
      = LiveSimple.AwaitingResponse s'
      /\ LiveSimple.requests s' = [Js.lit "hello"])
  /\ (exists s' : LiveSimple.store,
        LiveSimple.sendVoice
          (LiveSimple.onresult late (LiveSimple.stopRecording s))
        = LiveSimple.AwaitingResponse s'
        /\ LiveSimple.requests s' = [Js.lit "hello wor"]).
Proof.
  intros s late.
  assert (H1 : LiveSimple.isRecording s = true) by (vm_compute; reflexivity).
  assert (H2 : LiveSimple.userInput s = Some (Js.lit "hello"))
    by (vm_compute; reflexivity).
  destruct (simple_send_posts_field s _ H1 H2) as (_ & Hdirect & Hlate & _).
  split.
  - destruct Hdirect as (s' & Hs & Hq); [vm_compute; discriminate|].
    exists s'. split; [exact Hs|]. rewrite Hq. vm_compute. reflexivity.
  - destruct (Hlate late) as (s' & Hs & Hq); [vm_compute; discriminate|].
    exists s'. split; [exact Hs|]. rewrite Hq. vm_compute. reflexivity.
Defined.
